(** * clearsync: the [sendBatchTransfer] task

    A shallow embedding of [src/tasks/sendBatchTransfer.ts] and the
    properties of its four parts: the address-list parser
    ([parseAddressesFile]), the amount normaliser ([formatWithDecimals]),
    the pre-flight checks and the batch scheduler loop of the task action.

    Conventions of the embedding.
    - JavaScript strings are [string]; arrays are [list].
    - The integer-valued numbers of the task (cursor, batch sizes, intervals,
      array lengths, [decimals]) are [Z]: binary64 is exact on integers
      below 2^53.
    - [amount] is a JavaScript number, as [TaskArgs] declares it, and need
      not be an integer: it is a binary64 value ([spec_float] of the
      Standard Library, precision 53, [emax] 1024), and [*] and [toString]
      on it follow IEEE 754 and ECMAScript's Number::toString.
    - [Math.random()] reads the next element of a stream of binary64
      values; the expression [Math.floor(r * (hi - lo + 1) + lo)] is
      evaluated in binary64 and its integer result read back as a [Z].
    - An exception is a [Throw] result; the effects of the action towards
      the ledger client (submissions and timed waits) are recorded, in
      program order, in a trace of events.
    - The loop need not terminate: [schedule] takes a bound on the number
      of iterations and ends [Unfinished] when the bound is reached with
      the loop condition still true.
    - [console.log] output is not recorded. *)

From Stdlib Require Import ZArith List String Ascii Bool Lia.
From Stdlib Require Import SpecFloat DecimalString.
Import ListNotations.

Local Open Scope string_scope.
Local Open Scope Z_scope.

(** ** Exceptions *)

Inductive config_check :=
| MinBatchSizeAboveMax      (* line 52 *)
| MinIntervalAboveMax       (* line 56 *)
| MaxBatchSizeAboveCap.     (* line 60 *)

Inductive error :=
| ConfigError (c : config_check)
| RangeError                (* String.prototype.repeat, negative count *)
| InvalidBigNumber          (* BigNumber.from on a malformed string *)
| InsufficientFunds         (* line 86 *)
| NotOwner                  (* line 98 *)
| SubmissionRejected.       (* the awaited batchTransfer call rejects *)

Inductive result (A : Type) :=
| Ok (a : A)
| Throw (e : error).
Arguments Ok {A} a.
Arguments Throw {A} e.

Definition bind {A B} (r : result A) (k : A -> result B) : result B :=
  match r with
  | Ok a => k a
  | Throw e => Throw e
  end.

Notation "x <- r ;; k" := (bind r (fun x => k))
  (at level 61, r at next level, right associativity).

(** ** JavaScript strings and arrays *)

Module JS.

Definition length (s : string) : Z := Z.of_nat (String.length s).

(** [s.indexOf(c)] for a one-character needle: the index of the first
    occurrence, or -1. *)
Fixpoint indexOf (c : ascii) (s : string) : Z :=
  match s with
  | EmptyString => -1
  | String a s' =>
      if Ascii.eqb a c then 0
      else let r := indexOf c s' in
           if r =? -1 then -1 else r + 1
  end.

(** [s.replace(c, '')] for a one-character string pattern: only the first
    occurrence is removed. *)
Fixpoint removeFirst (c : ascii) (s : string) : string :=
  match s with
  | EmptyString => EmptyString
  | String a s' => if Ascii.eqb a c then s' else String a (removeFirst c s')
  end.

Fixpoint replicate (n : nat) (s : string) : string :=
  match n with
  | O => EmptyString
  | S n' => s ++ replicate n' s
  end.

(** [s.repeat(count)]: a negative count raises a RangeError. *)
Definition repeat (s : string) (count : Z) : result string :=
  if count <? 0 then Throw RangeError
  else Ok (replicate (Z.to_nat count) s).

(** [a.slice(start, end)] of ECMAScript: a negative index counts from the
    end of the array, and both indices are clamped to [0, a.length]. *)
Definition clampIndex (len rel : Z) : Z :=
  if rel <? 0 then Z.max (len + rel) 0 else Z.min rel len.

Definition slice {A} (a : list A) (start end_ : Z) : list A :=
  let len := Z.of_nat (List.length a) in
  let k := clampIndex len start in
  let final := clampIndex len end_ in
  firstn (Z.to_nat (final - k)) (skipn (Z.to_nat k) a).

End JS.

(** ** Module constants (lines 8-11) *)

Definition ADDRESS_ZERO : string := "0x" ++ JS.replicate 40 "0".
Definition MAX_BATCH_SIZE : Z := 500.
Definition DEFAULT_INTERVAL : Z := 10.

(** ** formatWithDecimals (lines 146-154) *)

Definition formatWithDecimals (value : string) (decimals : Z) : result string :=
  let pointIndex := JS.indexOf "." value in
  if pointIndex =? -1 then
    zeros <- JS.repeat "0" decimals ;;
    Ok (value ++ zeros)
  else
    let length := JS.length value - pointIndex - 1 in
    zeros <- JS.repeat "0" (decimals - length) ;;
    Ok (JS.removeFirst "." value ++ zeros).

(** ** JavaScript numbers (binary64) *)

Module Number.

Definition prec : Z := 53.
Definition emax : Z := 1024.
Definition t := spec_float.

(** [x * y], [x + y], [x - y] *)
Definition mul (x y : t) : t := SFmul prec emax x y.
Definition add (x y : t) : t := SFadd prec emax x y.
Definition sub (x y : t) : t := SFsub prec emax x y.

(** [Math.floor(x)] of a finite number, as an integer. *)
Definition floor (x : t) : Z :=
  match x with
  | S754_finite s m e =>
      let v := if s then Zneg m else Zpos m in
      if 0 <=? e then v * 2 ^ e else v / 2 ^ (- e)
  | _ => 0
  end.

(** A well-formed number [x] with [0 <= x < 1]: what [Math.random()] may
    return. *)
Definition inUnitInterval (x : t) : bool :=
  match x with
  | S754_zero false => true
  | S754_finite false m e =>
      valid_binary prec emax x && (Zpos (digits2_pos m) + e <=? 0)
  | _ => false
  end.

(** The number nearest to the rational [n / d], ties to even. *)
Definition ofRatio (n : Z) (d : positive) : t :=
  match n with
  | Z0 => S754_zero false
  | Zpos p => SFdiv prec emax (S754_finite false p 0) (S754_finite false d 0)
  | Zneg p => SFdiv prec emax (S754_finite true p 0) (S754_finite false d 0)
  end.

(** The number nearest to an integer (exact below 2^53). *)
Definition ofZ (z : Z) : t := binary_normalize prec emax z 0 false.

Definition decimal (z : Z) : string := NilZero.string_of_int (Z.to_int z).

Fixpoint digits10_aux (fuel : nat) (z : Z) : Z :=
  match fuel with
  | O => 1
  | S fuel' => if z <? 10 then 1 else 1 + digits10_aux fuel' (z / 10)
  end.

(** Number of decimal digits of a positive integer. *)
Definition digits10 (z : Z) : Z := digits10_aux (Z.to_nat (Z.log2 z)) z.

(** The rational [num / den / 10^j], as a fraction. *)
Definition scaled (num den j : Z) : Z * Z :=
  if 0 <=? j then (num, den * 10 ^ j) else (num * 10 ^ (- j), den).

(** The decimal exponent [n] of a positive rational:
    [10^(n-1) <= num / den < 10^n]. *)
Definition exponent10 (num den : Z) : Z :=
  let g := digits10 num - digits10 den in
  let '(a, b) := scaled num den g in
  if b <=? a then g + 1 else g.

(** The number nearest to [s * 10^j]. *)
Definition ofDecimal (s j : Z) : t :=
  if 0 <=? j then ofZ (s * 10 ^ j) else ofRatio s (Z.to_pos (10 ^ (- j))).

(** Number::toString, step 5: integers [n], [k], [s] with [k >= 1],
    [10^(k-1) <= s < 10^k], [s * 10^(n-k)] rounding to [x], and [k] as
    small as possible; among several [s], the one nearest to [x].  For
    each [k] the two [k]-digit decimals around [x = num / den] are the
    candidates.  The result is the pair [(s, n)]. *)
Fixpoint shortest (fuel : nat) (x : t) (num den n k : Z) : Z * Z :=
  let j := n - k in
  let '(a, b) := scaled num den j in
  let lo := a / b in
  let hi := lo + 1 in
  let lo_ok := SFeqb (ofDecimal lo j) x in
  let hi_ok := SFeqb (ofDecimal hi j) x in
  let hi_nearer :=
    match (2 * a ?= (2 * lo + 1) * b) with
    | Gt => true
    | Eq => Z.even hi
    | Lt => false
    end in
  let take_hi := if hi =? 10 ^ k then (10 ^ (k - 1), n + 1) else (hi, n) in
  match fuel with
  | O => (lo, n)
  | S fuel' =>
      if lo_ok && hi_ok then (if hi_nearer then take_hi else (lo, n))
      else if lo_ok then (lo, n)
      else if hi_ok then take_hi
      else shortest fuel' x num den n (k + 1)
  end.

Definition zeros (n : Z) : string := JS.replicate (Z.to_nat n) "0".

(** Number::toString, steps 6 to 12, for a positive finite number
    [x = m * 2^e]. *)
Definition toStringPos (x : t) (m : positive) (e : Z) : string :=
  let num := if 0 <=? e then Zpos m * 2 ^ e else Zpos m in
  let den := if 0 <=? e then 1 else 2 ^ (- e) in
  let '(s, n) := shortest 17 x num den (exponent10 num den) 1 in
  let digits := decimal s in
  let k := JS.length digits in
  if (-5 <=? n) && (n <=? 21) then
    if k <=? n then digits ++ zeros (n - k)
    else if 0 <? n then
      substring 0 (Z.to_nat n) digits ++ "."
        ++ substring (Z.to_nat n) (Z.to_nat (k - n)) digits
    else "0." ++ zeros (- n) ++ digits
  else
    let ex := n - 1 in
    let sign := if 0 <=? ex then "+" else "-" in
    if k =? 1 then digits ++ "e" ++ sign ++ decimal (Z.abs ex)
    else substring 0 1 digits ++ "." ++ substring 1 (Z.to_nat (k - 1)) digits
           ++ "e" ++ sign ++ decimal (Z.abs ex).

(** [x.toString()] *)
Definition toString (x : t) : string :=
  match x with
  | S754_nan => "NaN"
  | S754_zero _ => "0"
  | S754_infinity false => "Infinity"
  | S754_infinity true => "-Infinity"
  | S754_finite false m e => toStringPos x m e
  | S754_finite true m e => "-" ++ toStringPos (S754_finite false m e) m e
  end.

End Number.

(** ** ethers (v5) BigNumber

    Balances are [BigNumber]s, modelled by their integer value.
    [BigNumber.from] on a string accepts an optionally signed decimal or
    [0x]-prefixed hexadecimal numeral and throws on anything else;
    [a.lt(other)] converts [other] with [BigNumber.from]. *)

Module BigNumber.

Definition digitValue (base : Z) (c : ascii) : option Z :=
  let n := Z.of_nat (nat_of_ascii c) in
  let v :=
    if (48 <=? n) && (n <=? 57) then n - 48
    else if (97 <=? n) && (n <=? 102) then n - 87
    else if (65 <=? n) && (n <=? 70) then n - 55
    else base in
  if v <? base then Some v else None.

Fixpoint digitsValue (base : Z) (acc : Z) (s : string) : option Z :=
  match s with
  | EmptyString => Some acc
  | String c s' =>
      match digitValue base c with
      | Some v => digitsValue base (acc * base + v) s'
      | None => None
      end
  end.

(** The value of a numeral matching [[0-9]+] or [0x[0-9a-f]+]
    (case-insensitive). *)
Definition unsignedValue (s : string) : option Z :=
  match s with
  | EmptyString => None
  | String "0" (String "x" (String c r)) => digitsValue 16 0 (String c r)
  | String "0" (String "X" (String c r)) => digitsValue 16 0 (String c r)
  | _ => digitsValue 10 0 s
  end.

Definition from (value : string) : result Z :=
  let signed :=
    match value with
    | String "-" rest => option_map Z.opp (unsignedValue rest)
    | _ => unsignedValue value
    end in
  match signed with
  | Some v => Ok v
  | None => Throw InvalidBigNumber
  end.

Definition lt (a : Z) (other : string) : result bool :=
  b <- from other ;;
  Ok (a <? b).

End BigNumber.

(** ** parseAddressesFile (lines 121-144) *)

Definition isHexDigit (c : ascii) : bool :=
  let n := nat_of_ascii c in
  ((48 <=? n) && (n <=? 57) || (65 <=? n) && (n <=? 70)
   || (97 <=? n) && (n <=? 102))%nat.

Fixpoint allHexDigits (s : string) : bool :=
  match s with
  | EmptyString => true
  | String c s' => isHexDigit c && allHexDigits s'
  end.

(** [addressRegex.test(s)] for [/^0x[\dA-Fa-f]{40}$/]. *)
Definition addressRegex_test (s : string) : bool :=
  match s with
  | String "0" (String "x" body) =>
      (String.length body =? 40)%nat && allHexDigits body
  | _ => false
  end.

(** The ['line'] handler: the array [addresses] after one more line. *)
Definition onLine (addresses : list string) (address : string) : list string :=
  if negb (addressRegex_test address) then addresses
  else if String.eqb address ADDRESS_ZERO then addresses
  else addresses ++ [address].

(** The promise resolves, on ['close'], with the array built by the
    handler over the lines of the file in order. *)
Definition parseAddressesFile (lines : list string) : list string :=
  fold_left onLine lines [].

(** ** The environment of the task: ledger client, file system, randomness *)

Record Env := {
  signerAddress : string;                      (* ethers.getSigners()[0].address *)
  decimalsOf : string -> Z;                    (* Token.decimals() *)
  tokenBalanceOf : string -> string -> Z;      (* Token.balanceOf(holder) *)
  nativeBalanceOf : string -> Z;               (* provider.getBalance(holder) *)
  ownerOf : string -> string;                  (* BatchTransfer.owner() *)
  accepts : string -> list string -> string -> bool;
                                               (* does batchTransfer(...) resolve? *)
  fileLines : string -> list string;           (* lines readline emits for a path *)
  random : nat -> Number.t                     (* successive Math.random() values *)
}.

Record TaskArgs := {
  addressesPath : string;
  tokenAddress : string;
  batcherAddress : string;
  amount : Number.t;
  tokenNative : bool;
  minBatchSize : option Z;
  maxBatchSize : option Z;
  minInterval : option Z;
  maxInterval : option Z
}.

(** [a ?? b] *)
Definition nullish {A} (a : option A) (b : A) : A :=
  match a with
  | Some v => v
  | None => b
  end.

(** [Math.floor(Math.random() * (hi - lo + 1) + lo)] for the random value [r]. *)
Definition randomInt (r : Number.t) (lo hi : Z) : Z :=
  Number.floor
    (Number.add
       (Number.mul r
          (Number.add (Number.sub (Number.ofZ hi) (Number.ofZ lo)) (Number.ofZ 1)))
       (Number.ofZ lo)).

(** ** Observable effects *)

Inductive event :=
| BatchTransfer (token : string) (batch : list string) (amount : string)
      (* line 110: one submitted call *)
| Sleep (ms : Z).
      (* line 115: setTimeout(resolve, ms) *)

Inductive ending :=
| Exited (i : Z)        (* the loop condition failed with cursor [i] *)
| Raised (e : error)    (* an exception propagated *)
| Unfinished.           (* still looping when the fuel ran out *)

(** ** The scheduler loop (lines 101-118) *)

Section Scheduler.

Variable env : Env.
Variable token : string.
Variable amountFormatted : string.
Variables minBatchSize maxBatchSize minInterval maxInterval : Z.
Variable addresses : list string.

Definition addresses_length : Z := Z.of_nat (List.length addresses).

(** [schedule fuel i k]: the loop from cursor [i], with [k] random values
    already consumed, for at most [fuel] iterations. *)
Fixpoint schedule (fuel : nat) (i : Z) (k : nat) : list event * ending :=
  if i <? addresses_length then
    match fuel with
    | O => ([], Unfinished)
    | S fuel' =>
        let batchSize := randomInt (random env k) minBatchSize maxBatchSize in
        let batchSize :=
          if i + batchSize >? addresses_length then addresses_length - i
          else batchSize in
        let batchAddresses := JS.slice addresses i (i + batchSize) in
        if accepts env token batchAddresses amountFormatted then
          let interval := randomInt (random env (S k)) minInterval maxInterval in
          let '(rest, e) := schedule fuel' (i + batchSize) (S (S k)) in
          (BatchTransfer token batchAddresses amountFormatted
             :: Sleep (interval * 60 * 1000) :: rest, e)
        else
          ([BatchTransfer token batchAddresses amountFormatted],
           Raised SubmissionRejected)
    end
  else ([], Exited i).

End Scheduler.

(** ** The task action (lines 45-119) *)

(** Lines 52-62. *)
Definition checkConfig (minBatchSize maxBatchSize minInterval maxInterval : Z) : result unit :=
  if minBatchSize >? maxBatchSize then Throw (ConfigError MinBatchSizeAboveMax)
  else if minInterval >? maxInterval then Throw (ConfigError MinIntervalAboveMax)
  else if maxBatchSize >? MAX_BATCH_SIZE then Throw (ConfigError MaxBatchSizeAboveCap)
  else Ok tt.

(** Lines 79-82. *)
Definition holdings (env : Env) (taskArgs : TaskArgs) : Z :=
  if tokenNative taskArgs then nativeBalanceOf env (batcherAddress taskArgs)
  else tokenBalanceOf env (tokenAddress taskArgs) (batcherAddress taskArgs).

(** Line 84. *)
Definition expectedCost (quantity : Z) (amount : Number.t) (decimals : Z)
  : result string :=
  formatWithDecimals
    (Number.toString (Number.mul (Number.ofZ quantity) amount)) decimals.

(** Everything before the loop: the result is the recipient list and the
    per-recipient amount in base units. *)
Definition preflight (env : Env) (taskArgs : TaskArgs)
  : result (list string * string) :=
  let minBatchSize := nullish (minBatchSize taskArgs) MAX_BATCH_SIZE in
  let maxBatchSize := nullish (maxBatchSize taskArgs) MAX_BATCH_SIZE in
  let minInterval := nullish (minInterval taskArgs) DEFAULT_INTERVAL in
  let maxInterval := nullish (maxInterval taskArgs) DEFAULT_INTERVAL in
  _ <- checkConfig minBatchSize maxBatchSize minInterval maxInterval ;;
  let addresses := parseAddressesFile (fileLines env (addressesPath taskArgs)) in
  let quantity := Z.of_nat (List.length addresses) in
  let decimals := decimalsOf env (tokenAddress taskArgs) in
  amountFormatted <- formatWithDecimals (Number.toString (amount taskArgs)) decimals ;;
  let tokenBalance := holdings env taskArgs in
  cost <- expectedCost quantity (amount taskArgs) decimals ;;
  short <- BigNumber.lt tokenBalance cost ;;
  if short then Throw InsufficientFunds
  else if negb (String.eqb (ownerOf env (batcherAddress taskArgs)) (signerAddress env))
  then Throw NotOwner
  else Ok (addresses, amountFormatted).

Definition sendBatchTransfer (env : Env) (fuel : nat) (taskArgs : TaskArgs)
  : list event * ending :=
  match preflight env taskArgs with
  | Throw e => ([], Raised e)
  | Ok (addresses, amountFormatted) =>
      schedule env
        (if tokenNative taskArgs then ADDRESS_ZERO else tokenAddress taskArgs)
        amountFormatted
        (nullish (minBatchSize taskArgs) MAX_BATCH_SIZE)
        (nullish (maxBatchSize taskArgs) MAX_BATCH_SIZE)
        (nullish (minInterval taskArgs) DEFAULT_INTERVAL)
        (nullish (maxInterval taskArgs) DEFAULT_INTERVAL)
        addresses fuel 0 0%nat
  end.

(** * Vocabulary of the properties *)

Definition chars (s : string) : list ascii := list_ascii_of_string s.

(** The pattern [^0x[0-9A-Fa-f]{40}$], spelled out. *)
Definition hexChar (c : ascii) : Prop := In c (chars "0123456789ABCDEFabcdef").

Definition wellFormedAddress (s : string) : Prop :=
  exists body,
    s = "0x" ++ body /\ String.length body = 40%nat /\ Forall hexChar (chars body).

(** The lines the parser is to keep. *)
Definition recipient (line : string) : bool :=
  addressRegex_test line && negb (String.eqb line ADDRESS_ZERO).

(** The configuration of a task passes the three checks of lines 52-62. *)
Definition validated (taskArgs : TaskArgs) : Prop :=
  checkConfig (nullish (minBatchSize taskArgs) MAX_BATCH_SIZE)
              (nullish (maxBatchSize taskArgs) MAX_BATCH_SIZE)
              (nullish (minInterval taskArgs) DEFAULT_INTERVAL)
              (nullish (maxInterval taskArgs) DEFAULT_INTERVAL) = Ok tt.

(** The recipient list of a task. *)
Definition recipientsOf (env : Env) (taskArgs : TaskArgs) : list string :=
  parseAddressesFile (fileLines env (addressesPath taskArgs)).

(** The per-recipient amount in base units (line 76), as a string. *)
Definition perRecipient (env : Env) (taskArgs : TaskArgs) : result string :=
  formatWithDecimals (Number.toString (amount taskArgs))
                     (decimalsOf env (tokenAddress taskArgs)).

(** The total cost the balance is compared with (lines 84-85), as the
    integer [BigNumber] reads from the string [expectedCost]. *)
Definition computedCost (env : Env) (taskArgs : TaskArgs) : result Z :=
  cost <- expectedCost (Z.of_nat (List.length (recipientsOf env taskArgs)))
                       (amount taskArgs)
                       (decimalsOf env (tokenAddress taskArgs)) ;;
  BigNumber.from cost.

(** The batches submitted along a trace, in order. *)
Fixpoint batches (tr : list event) : list (list string) :=
  match tr with
  | [] => []
  | BatchTransfer _ batch _ :: tr' => batch :: batches tr'
  | Sleep _ :: tr' => batches tr'
  end.

(** Every [Math.random()] value lies in [0, 1). *)
Definition randomValid (env : Env) : Prop :=
  forall k, Number.inUnitInterval (random env k) = true.

(** Every draw from the range [lo, hi] falls in that range. *)
Definition drawsWithin (env : Env) (lo hi : Z) : Prop :=
  forall k, lo <= randomInt (random env k) lo hi <= hi.

(** The ledger client accepts every submission. *)
Definition alwaysAccepts (env : Env) : Prop :=
  forall token batch amount, accepts env token batch amount = true.

(** The batch size of the iteration at cursor [i] that draws [d]
    (lines 104-106). *)
Definition clip (len i d : Z) : Z := if i + d >? len then len - i else d.

(** Every batch but the last has a size in [lo, hi]; the last one has the
    size of what remained before it, [remaining] counting what is left of
    the list before the first batch. *)
Fixpoint sizesWithin (lo hi remaining : Z) (bs : list (list string)) : Prop :=
  match bs with
  | [] => remaining = 0
  | b :: bs' =>
      match bs' with
      | [] => Z.of_nat (List.length b) = remaining
      | _ :: _ =>
          lo <= Z.of_nat (List.length b) <= hi
          /\ sizesWithin lo hi (remaining - Z.of_nat (List.length b)) bs'
      end
  end.

(** A trace in which every submission is followed by one wait. *)
Inductive paced : list event -> Prop :=
| paced_nil : paced []
| paced_cons token batch amount ms tr :
    paced tr -> paced (BatchTransfer token batch amount :: Sleep ms :: tr).

(** Every wait of the trace has a submission somewhere before it and
    another somewhere after it. *)
Definition delaysOnlyBetweenBatches (tr : list event) : Prop :=
  forall pre ms post, tr = (pre ++ Sleep ms :: post)%list ->
    (exists token batch amount, In (BatchTransfer token batch amount) pre)
    /\ (exists token batch amount, In (BatchTransfer token batch amount) post).

(** ** Sample inputs for the evaluations *)

Definition addrA : string := "0xAAAAAAAAAAAAAAAAAAAAAAAAAAAAAAAAAAAAAAAA".
Definition addrB : string := "0xBBBBBBBBBBBBBBBBBBBBBBBBBBBBBBBBBBBBBBBB".
Definition addrC : string := "0xCCCCCCCCCCCCCCCCCCCCCCCCCCCCCCCCCCCCCCCC".
Definition addrD : string := "0xDDDDDDDDDDDDDDDDDDDDDDDDDDDDDDDDDDDDDDDD".
Definition addrE : string := "0xEEEEEEEEEEEEEEEEEEEEEEEEEEEEEEEEEEEEEEEE".
Definition tokenT : string := "0x1111111111111111111111111111111111111111".
Definition batcher : string := "0x2222222222222222222222222222222222222222".
Definition operator : string := "0x3333333333333333333333333333333333333333".

(** An environment whose file holds [lines], whose token has [decimals]
    decimals, whose batcher holds [balance] tokens and is owned by the
    signer, whose ledger accepts every call, and whose random values are
    [rnd]. *)
Definition sampleEnv (lines : list string) (decimals balance : Z)
  (rnd : nat -> Number.t) : Env :=
  {| signerAddress := operator;
     decimalsOf := fun _ => decimals;
     tokenBalanceOf := fun _ _ => balance;
     nativeBalanceOf := fun _ => 0;
     ownerOf := fun _ => operator;
     accepts := fun _ _ _ => true;
     fileLines := fun _ => lines;
     random := rnd |}.

Definition sampleArgs (amount : Number.t) (minBatch maxBatch : option Z)
  : TaskArgs :=
  {| addressesPath := "addresses.txt";
     tokenAddress := tokenT;
     batcherAddress := batcher;
     amount := amount;
     tokenNative := false;
     minBatchSize := minBatch;
     maxBatchSize := maxBatch;
     minInterval := None;
     maxInterval := None |}.

(** The numbers 0.1, 0, 0.5, 0.75 and 0.9999999999999998 (that is,
    1 - 2^-52). *)
Definition oneTenth : Number.t := Number.ofRatio 1 10.
Definition zero : Number.t := Number.ofZ 0.
Definition half : Number.t := Number.ofRatio 1 2.
Definition threeQuarters : Number.t := Number.ofRatio 3 4.
Definition almostOne : Number.t := Number.ofRatio (2 ^ 52 - 1) (2 ^ 52).

(** ** Further vocabulary: numerals, other environments *)

(** A decimal digit, a string of decimal digits, and the integer such a
    string denotes. *)
Definition isDigit (c : ascii) : bool :=
  let n := Z.of_nat (nat_of_ascii c) in (48 <=? n) && (n <=? 57).

Fixpoint allDigits (s : string) : bool :=
  match s with
  | EmptyString => true
  | String c s' => isDigit c && allDigits s'
  end.

Definition decimalValue (s : string) : Z :=
  fold_left (fun acc c => acc * 10 + (Z.of_nat (nat_of_ascii c) - 48)) (chars s) 0.

(** The part of a string before its first point, and the number of
    characters after that point (0 without a point). *)
Fixpoint integerPart (s : string) : string :=
  match s with
  | EmptyString => EmptyString
  | String c s' => if Ascii.eqb c "." then EmptyString else String c (integerPart s')
  end.

Fixpoint fractionLength (s : string) : Z :=
  match s with
  | EmptyString => 0
  | String c s' => if Ascii.eqb c "." then JS.length s' else fractionLength s'
  end.

(** The sample environment with a batcher owned by someone else. *)
Definition strangerEnv (lines : list string) (decimals balance : Z)
  (rnd : nat -> Number.t) : Env :=
  {| signerAddress := operator;
     decimalsOf := fun _ => decimals;
     tokenBalanceOf := fun _ _ => balance;
     nativeBalanceOf := fun _ => 0;
     ownerOf := fun _ => addrA;
     accepts := fun _ _ _ => true;
     fileLines := fun _ => lines;
     random := rnd |}.

(** The sample environment with a ledger that rejects every batch holding
    the address [bad]. *)
Definition refusingEnv (bad : string) (lines : list string)
  (decimals balance : Z) (rnd : nat -> Number.t) : Env :=
  {| signerAddress := operator;
     decimalsOf := fun _ => decimals;
     tokenBalanceOf := fun _ _ => balance;
     nativeBalanceOf := fun _ => 0;
     ownerOf := fun _ => operator;
     accepts := fun _ batch _ => negb (existsb (String.eqb bad) batch);
     fileLines := fun _ => lines;
     random := rnd |}.

(** The sample environment with a batcher that holds [tokens] base units
    of the token and [coins] base units of the native currency. *)
Definition walletEnv (lines : list string) (decimals tokens coins : Z)
  (rnd : nat -> Number.t) : Env :=
  {| signerAddress := operator;
     decimalsOf := fun _ => decimals;
     tokenBalanceOf := fun _ _ => tokens;
     nativeBalanceOf := fun _ => coins;
     ownerOf := fun _ => operator;
     accepts := fun _ _ _ => true;
     fileLines := fun _ => lines;
     random := rnd |}.

(** The sample arguments with [tokenNative] set. *)
Definition nativeArgs (amount : Number.t) (minBatch maxBatch : option Z)
  : TaskArgs :=
  {| addressesPath := "addresses.txt";
     tokenAddress := tokenT;
     batcherAddress := batcher;
     amount := amount;
     tokenNative := true;
     minBatchSize := minBatch;
     maxBatchSize := maxBatch;
     minInterval := None;
     maxInterval := None |}.

(** * Properties *)

(** ** The number model on known values *)

Example toString_tenth : Number.toString oneTenth = "0.1".
Proof. vm_compute. reflexivity. Qed.

Example toString_three_tenths :
  Number.toString (Number.mul (Number.ofZ 3) oneTenth) = "0.30000000000000004".
Proof. vm_compute. reflexivity. Qed.

Example toString_integer : Number.toString (Number.ofZ 1500) = "1500".
Proof. vm_compute. reflexivity. Qed.

Example toString_fraction : Number.toString (Number.ofRatio 3 2) = "1.5".
Proof. vm_compute. reflexivity. Qed.

Example toString_exponent : Number.toString (Number.ofZ (10 ^ 21)) = "1e+21".
Proof. vm_compute. reflexivity. Qed.

Example toString_small : Number.toString (Number.ofRatio 1 10000000) = "1e-7".
Proof. vm_compute. reflexivity. Qed.

Example draw_middle : randomInt half 1 500 = 251.
Proof. vm_compute. reflexivity. Qed.

Example draw_low : randomInt zero (-1) 2 = -1.
Proof. vm_compute. reflexivity. Qed.

Example draw_high : randomInt threeQuarters (-1) 2 = 2.
Proof. vm_compute. reflexivity. Qed.

Example toString_max :
  Number.toString (S754_finite false (2 ^ 53 - 1) 971) = "1.7976931348623157e+308".
Proof. vm_compute. reflexivity. Qed.


(** ** Strings *)

Lemma chars_app (s1 s2 : string) : chars (s1 ++ s2) = (chars s1 ++ chars s2)%list.
Proof.
  induction s1 as [|a s1 IH]; simpl; [reflexivity|].
  unfold chars in *; simpl. now rewrite IH.
Qed.

Lemma length_app (s1 s2 : string) :
  JS.length (s1 ++ s2) = JS.length s1 + JS.length s2.
Proof.
  unfold JS.length. induction s1 as [|a s1 IH]; simpl String.length; lia.
Qed.

Lemma length_replicate_char (n : nat) (c : ascii) :
  JS.length (JS.replicate n (String c EmptyString)) = Z.of_nat n.
Proof.
  unfold JS.length. induction n as [|n IH]; simpl String.length in *; lia.
Qed.

Lemma indexOf_absent (c : ascii) (s : string) :
  ~ In c (chars s) -> JS.indexOf c s = -1.
Proof.
  induction s as [|a s IH]; simpl; intros H; [reflexivity|].
  destruct (Ascii.eqb_spec a c) as [->|Hne].
  - exfalso. apply H. now left.
  - rewrite IH; [reflexivity|]. intros Hin. apply H. now right.
Qed.

Lemma indexOf_first (c : ascii) (ip fp : string) :
  ~ In c (chars ip) -> JS.indexOf c (ip ++ String c fp) = JS.length ip.
Proof.
  unfold JS.length.
  induction ip as [|a ip IH]; simpl; intros H.
  - now rewrite Ascii.eqb_refl.
  - destruct (Ascii.eqb_spec a c) as [->|Hne].
    + exfalso. apply H. now left.
    + rewrite IH by (intros Hin; apply H; now right).
      destruct (Z.eqb_spec (Z.of_nat (String.length ip)) (-1)); lia.
Qed.

Lemma removeFirst_absent (c : ascii) (s : string) :
  ~ In c (chars s) -> JS.removeFirst c s = s.
Proof.
  induction s as [|a s IH]; simpl; intros H; [reflexivity|].
  destruct (Ascii.eqb_spec a c) as [->|Hne].
  - exfalso. apply H. now left.
  - f_equal. apply IH. intros Hin. apply H. now right.
Qed.

Lemma removeFirst_first (c : ascii) (ip fp : string) :
  ~ In c (chars ip) -> JS.removeFirst c (ip ++ String c fp) = ip ++ fp.
Proof.
  induction ip as [|a ip IH]; simpl; intros H.
  - now rewrite Ascii.eqb_refl.
  - destruct (Ascii.eqb_spec a c) as [->|Hne].
    + exfalso. apply H. now left.
    + f_equal. apply IH. intros Hin. apply H. now right.
Qed.

Lemma app_assoc_string (a b c : string) : (a ++ b) ++ c = a ++ b ++ c.
Proof. induction a as [|x a IH]; simpl; [reflexivity | now rewrite IH]. Qed.

(** ** formatWithDecimals *)

(** The value [ip ++ "." ++ fp], whose integer part [ip] holds no point:
    the point is found after [ip], the fractional length is that of [fp]. *)
Lemma formatWithDecimals_point (ip fp : string) (decimals : Z) :
  ~ In "."%char (chars ip) ->
  formatWithDecimals (ip ++ "." ++ fp) decimals =
    (zeros <- JS.repeat "0" (decimals - JS.length fp) ;; Ok (ip ++ fp ++ zeros)).
Proof.
  intros Hip. unfold formatWithDecimals.
  change (ip ++ "." ++ fp) with (ip ++ String "." fp).
  rewrite indexOf_first, removeFirst_first by assumption.
  destruct (Z.eqb_spec (JS.length ip) (-1)) as [E|_].
  - unfold JS.length in E. lia.
  - rewrite length_app.
    replace (JS.length (String "." fp)) with (JS.length fp + 1)
      by (unfold JS.length; simpl String.length; lia).
    replace (JS.length ip + (JS.length fp + 1) - JS.length ip - 1)
      with (JS.length fp) by lia.
    destruct (JS.repeat "0" (decimals - JS.length fp)); simpl; [|reflexivity].
    now rewrite app_assoc_string.
Qed.

(** C5: a value without a point gets [decimals] zeros appended; a value
    [ip.fp] whose fractional part [fp] is no longer than [decimals] loses
    its point and gets zeros appended until the fractional part has
    [decimals] digits; so ["1"] and ["1.5"] at 6 decimals give ["1000000"]
    and ["1500000"]. *)
Theorem formatWithDecimals_pads :
  (forall value decimals,
      ~ In "."%char (chars value) -> 0 <= decimals ->
      formatWithDecimals value decimals
      = Ok (value ++ JS.replicate (Z.to_nat decimals) "0"))
  /\ (forall ip fp decimals,
      ~ In "."%char (chars ip) -> JS.length fp <= decimals ->
      let padded := fp ++ JS.replicate (Z.to_nat (decimals - JS.length fp)) "0" in
      formatWithDecimals (ip ++ "." ++ fp) decimals = Ok (ip ++ padded)
      /\ JS.length padded = decimals)
  /\ formatWithDecimals "1" 6 = Ok "1000000"
  /\ formatWithDecimals "1.5" 6 = Ok "1500000".
Proof.
  split; [|split; [|split; reflexivity]].
  - intros value decimals Hv Hd. unfold formatWithDecimals.
    rewrite indexOf_absent by assumption. simpl.
    unfold JS.repeat. destruct (Z.ltb_spec decimals 0); [lia|reflexivity].
  - intros ip fp decimals Hip Hlen padded. split.
    + rewrite formatWithDecimals_point by assumption.
      unfold JS.repeat.
      destruct (Z.ltb_spec (decimals - JS.length fp) 0); [lia|reflexivity].
    + unfold padded. rewrite length_app, length_replicate_char. lia.
Qed.

Lemma formatWithDecimals_pads_witness :
  formatWithDecimals ("12" ++ "." ++ "5") 6 = Ok ("12" ++ "5" ++ "00000")
  /\ formatWithDecimals "7" 2 = Ok "700".
Proof.
  split.
  - apply (proj1 (proj2 formatWithDecimals_pads) "12" "5" 6).
    + simpl. intros [H|[H|[]]]; discriminate H.
    + vm_compute. discriminate.
  - apply (proj1 formatWithDecimals_pads "7" 2).
    + simpl. intros [H|[]]; discriminate H.
    + lia.
Defined.

(** C6 as stated fails: the result for ["0.000001"] at 6 decimals has seven
    characters, the integer digit included. *)
Lemma formatWithDecimals_micro_not_six_chars :
  formatWithDecimals "0.000001" 6 <> Ok "000001".
Proof. vm_compute. discriminate. Qed.

(** C6, amended: ["0.000001"] at 6 decimals gives ["0000001"], leading
    zeros kept, which [BigNumber.from] reads as the value 1. *)
Theorem formatWithDecimals_micro :
  formatWithDecimals "0.000001" 6 = Ok "0000001"
  /\ BigNumber.from "0000001" = Ok 1.
Proof. split; reflexivity. Qed.

(** C7: a value [ip.fp] whose fractional part is longer than [decimals]
    makes [formatWithDecimals] throw (the RangeError of [repeat] on a
    negative count); no string is returned. *)
Theorem formatWithDecimals_rejects_long_fraction (ip fp : string) (decimals : Z) :
  ~ In "."%char (chars ip) ->
  decimals < JS.length fp ->
  formatWithDecimals (ip ++ "." ++ fp) decimals = Throw RangeError.
Proof.
  intros Hip Hlen. rewrite formatWithDecimals_point by assumption.
  unfold JS.repeat.
  destruct (Z.ltb_spec (decimals - JS.length fp) 0); [reflexivity|lia].
Qed.

Lemma formatWithDecimals_rejects_long_fraction_witness :
  formatWithDecimals ("1" ++ "." ++ "1234567") 6 = Throw RangeError.
Proof.
  apply (formatWithDecimals_rejects_long_fraction "1" "1234567" 6).
  - simpl. intros [H|[]]; discriminate H.
  - vm_compute. reflexivity.
Defined.

(** ** parseAddressesFile *)

Lemma isHexDigit_spec (c : ascii) : isHexDigit c = true <-> hexChar c.
Proof.
  unfold hexChar. split.
  - destruct c as [[] [] [] [] [] [] [] []]; vm_compute; intros H;
      try discriminate H; clear H; tauto.
  - intros H. simpl in H.
    repeat (destruct H as [<-|H]; [reflexivity|]). destruct H.
Qed.

Lemma allHexDigits_spec (s : string) :
  allHexDigits s = true <-> Forall hexChar (chars s).
Proof.
  induction s as [|c s IH]; simpl.
  - split; [constructor|reflexivity].
  - rewrite andb_true_iff, isHexDigit_spec, IH. split.
    + intros [Hc Hs]. now constructor.
    + intros H. inversion H; subst. now split.
Qed.

Lemma addressRegex_test_spec (s : string) :
  addressRegex_test s = true <-> wellFormedAddress s.
Proof.
  unfold wellFormedAddress. split.
  - destruct s as [|a [|b body]]; simpl; try discriminate.
    + destruct a as [[] [] [] [] [] [] [] []]; discriminate.
    + destruct a as [[] [] [] [] [] [] [] []]; try discriminate.
      destruct b as [[] [] [] [] [] [] [] []]; try discriminate.
      rewrite andb_true_iff, Nat.eqb_eq, allHexDigits_spec.
      intros [Hlen Hhex]. exists body. now repeat split.
  - intros (body & -> & Hlen & Hhex). simpl.
    rewrite andb_true_iff, Nat.eqb_eq, allHexDigits_spec. now split.
Qed.

Lemma recipient_spec (line : string) :
  recipient line = true <-> wellFormedAddress line /\ line <> ADDRESS_ZERO.
Proof.
  unfold recipient.
  rewrite andb_true_iff, negb_true_iff, addressRegex_test_spec.
  destruct (String.eqb_spec line ADDRESS_ZERO); intuition congruence.
Qed.

Lemma onLine_filter (line : string) (addresses : list string) :
  onLine addresses line = (addresses ++ filter recipient [line])%list.
Proof.
  unfold onLine, recipient. simpl.
  destruct (addressRegex_test line); simpl.
  - destruct (String.eqb line ADDRESS_ZERO); simpl;
      [now rewrite app_nil_r | reflexivity].
  - now rewrite app_nil_r.
Qed.

Lemma fold_onLine (lines addresses : list string) :
  fold_left onLine lines addresses = (addresses ++ filter recipient lines)%list.
Proof.
  revert addresses. induction lines as [|line lines IH]; intros addresses.
  - simpl. now rewrite app_nil_r.
  - cbn [fold_left]. rewrite IH, onLine_filter.
    change (line :: lines) with ([line] ++ lines)%list.
    now rewrite filter_app, app_assoc.
Qed.

(** C8: the parser returns exactly the lines that match the address
    pattern and are not the zero address, in their order of appearance and
    with repetitions kept; a line that fails the pattern is dropped and
    parsing goes on.  On the four lines of the example the result is the
    two well-formed non-zero addresses. *)
Theorem parseAddressesFile_filters :
  (forall lines, parseAddressesFile lines = filter recipient lines)
  /\ (forall line,
         recipient line = true <-> wellFormedAddress line /\ line <> ADDRESS_ZERO)
  /\ parseAddressesFile
       ["0xAAAAAAAAAAAAAAAAAAAAAAAAAAAAAAAAAAAAAAAA"; "not-an-address";
        "0x0000000000000000000000000000000000000000";
        "0xBBBBBBBBBBBBBBBBBBBBBBBBBBBBBBBBBBBBBBBB"]
     = ["0xAAAAAAAAAAAAAAAAAAAAAAAAAAAAAAAAAAAAAAAA";
        "0xBBBBBBBBBBBBBBBBBBBBBBBBBBBBBBBBBBBBBBBB"].
Proof.
  split; [|split].
  - intros lines. unfold parseAddressesFile. now rewrite fold_onLine.
  - apply recipient_spec.
  - reflexivity.
Qed.

(** ** Slices *)

Lemma slice_span {A} (a : list A) (s e : Z) :
  0 <= s -> s <= e -> e <= Z.of_nat (List.length a) ->
  JS.slice a s e = firstn (Z.to_nat (e - s)) (skipn (Z.to_nat s) a).
Proof.
  intros Hs Hse He. unfold JS.slice, JS.clampIndex.
  destruct (Z.ltb_spec s 0); [lia|]. destruct (Z.ltb_spec e 0); [lia|].
  now rewrite !Z.min_l by lia.
Qed.

Lemma slice_length {A} (a : list A) (s e : Z) :
  0 <= s -> s <= e -> e <= Z.of_nat (List.length a) ->
  Z.of_nat (List.length (JS.slice a s e)) = e - s.
Proof.
  intros Hs Hse He. rewrite slice_span by assumption.
  rewrite length_firstn, length_skipn. lia.
Qed.

(** Case analysis on every clipping test in sight, then arithmetic. *)
Ltac clip_lia :=
  unfold clip in *;
  repeat match goal with
         | |- context [?a >? ?b] => destruct (Z.gtb_spec a b)
         | H : context [?a >? ?b] |- _ => destruct (Z.gtb_spec a b)
         end;
  lia.

Section SchedulerProperties.

Variable env : Env.
Variable token amountFormatted : string.
Variables minBatchSize maxBatchSize minInterval maxInterval : Z.
Variable addresses : list string.

Local Abbreviation len := (addresses_length addresses).
Local Abbreviation run :=
  (schedule env token amountFormatted minBatchSize maxBatchSize minInterval maxInterval addresses).
Local Abbreviation size i k :=
  (clip len i (randomInt (random env k) minBatchSize maxBatchSize)).

Lemma schedule_exit (fuel : nat) (i : Z) (k : nat) :
  len <= i -> run fuel i k = ([], Exited i).
Proof.
  intros H.
  destruct fuel; simpl; destruct (Z.ltb_spec i (addresses_length addresses)); try lia; reflexivity.
Qed.

Lemma schedule_step (fuel : nat) (i : Z) (k : nat) :
  i < len ->
  run (S fuel) i k =
    let batch := JS.slice addresses i (i + size i k) in
    if accepts env token batch amountFormatted then
      (BatchTransfer token batch amountFormatted
         :: Sleep (randomInt (random env (S k)) minInterval maxInterval * 60 * 1000)
         :: fst (run fuel (i + size i k) (S (S k))),
       snd (run fuel (i + size i k) (S (S k))))
    else ([BatchTransfer token batch amountFormatted], Raised SubmissionRejected).
Proof.
  intros H. unfold clip. cbn [schedule].
  destruct (Z.ltb_spec i (addresses_length addresses)); [|lia].
  cbv zeta.
  destruct (accepts env token _ amountFormatted); [|reflexivity].
  now destruct (schedule _ _ _ _ _ _ _ _ fuel _ _).
Qed.

Lemma size_fits (i : Z) (k : nat) : i + size i k <= len.
Proof. clip_lia. Qed.

Lemma size_lower (i : Z) (k : nat) (lo : Z) :
  drawsWithin env minBatchSize maxBatchSize ->
  lo <= minBatchSize -> i < len -> lo <= len - i ->
  lo <= size i k.
Proof.
  intros Hr Hlo Hi Hrem. pose proof (Hr k). clip_lia.
Qed.

(** A complete run from cursor [i] ends with the cursor at the end of the
    list and its batches, in order, are the recipients from [i] on. *)
Lemma schedule_partition (fuel : nat) :
  drawsWithin env minBatchSize maxBatchSize -> 0 <= minBatchSize ->
  forall i k tr j,
    0 <= i <= len ->
    run fuel i k = (tr, Exited j) ->
    j = len /\ List.concat (batches tr) = skipn (Z.to_nat i) addresses.
Proof.
  intros Hr Hmin. induction fuel as [|fuel IH]; intros i k tr j Hi Hrun.
  - destruct (Z.ltb_spec i len) as [Hlt|Hge].
    + simpl in Hrun.
      destruct (Z.ltb_spec i len); [discriminate|lia].
    + rewrite schedule_exit in Hrun by assumption. inversion Hrun; subst.
      split; [lia|]. simpl. rewrite skipn_all2; [reflexivity|].
      unfold addresses_length in *. lia.
  - destruct (Z.ltb_spec i len) as [Hlt|Hge].
    + rewrite schedule_step in Hrun by assumption. cbv zeta in Hrun.
      pose proof (size_fits i k) as Hfit.
      assert (Hsz : 0 <= size i k) by (apply size_lower; [assumption|lia..]).
      destruct (accepts env token _ amountFormatted); [|discriminate].
      inversion Hrun as [[Htr Hend]]; subst tr.
      destruct (run fuel (i + size i k) (S (S k))) as [rest e] eqn:Hrest.
      simpl in Hend; subst e. simpl fst.
      destruct (IH _ _ _ _ (conj (Z.add_nonneg_nonneg _ _ (proj1 Hi) Hsz) Hfit) Hrest) as [-> Hcat].
      split; [reflexivity|]. simpl. rewrite Hcat.
      rewrite slice_span by (unfold addresses_length in *; lia).
      replace (i + size i k - i) with (size i k) by lia.
      replace (Z.to_nat (i + size i k)) with (Z.to_nat (size i k) + Z.to_nat i)%nat by lia.
      rewrite <- skipn_skipn. apply firstn_skipn.
    + rewrite schedule_exit in Hrun by assumption. inversion Hrun; subst.
      split; [lia|]. simpl. rewrite skipn_all2; [reflexivity|].
      unfold addresses_length in *. lia.
Qed.

(** With batch sizes of at least one the loop exits within as many
    iterations as recipients remain. *)
Lemma schedule_terminates (fuel : nat) :
  drawsWithin env minBatchSize maxBatchSize -> alwaysAccepts env ->
  1 <= minBatchSize ->
  forall i k,
    0 <= i <= len -> len - i <= Z.of_nat fuel ->
    snd (run fuel i k) = Exited len.
Proof.
  intros Hr Hacc Hmin. induction fuel as [|fuel IH]; intros i k Hi Hfuel.
  - rewrite schedule_exit by lia. simpl. f_equal. lia.
  - destruct (Z.ltb_spec i len) as [Hlt|Hge].
    + rewrite schedule_step by assumption. cbv zeta.
      rewrite Hacc. simpl snd.
      pose proof (size_fits i k) as Hfit.
      assert (Hsz : 1 <= size i k) by (apply size_lower; [assumption|lia..]).
      apply IH; lia.
    + rewrite schedule_exit by assumption. simpl. f_equal. lia.
Qed.


Lemma schedule_stuck (i : Z) (k : nat) (tr : list event) (j : Z) :
  run 0 i k = (tr, Exited j) -> len <= i.
Proof.
  simpl. destruct (Z.ltb_spec i len); [discriminate|trivial].
Qed.

(** In a complete run every batch but the last has a size within the
    configured range and the last one takes all that remains. *)
Lemma schedule_sizes (fuel : nat) :
  drawsWithin env minBatchSize maxBatchSize -> 0 <= minBatchSize ->
  forall i k tr j,
    0 <= i <= len ->
    run fuel i k = (tr, Exited j) ->
    sizesWithin minBatchSize maxBatchSize (len - i) (batches tr).
Proof.
  intros Hr Hmin. induction fuel as [|fuel IH]; intros i k tr j Hi Hrun.
  - pose proof (schedule_stuck _ _ _ _ Hrun) as Hge.
    rewrite schedule_exit in Hrun by assumption. inversion Hrun; subst.
    simpl. lia.
  - destruct (Z.ltb_spec i len) as [Hlt|Hge].
    + rewrite schedule_step in Hrun by assumption. cbv zeta in Hrun.
      pose proof (size_fits i k) as Hfit.
      assert (Hsz : 0 <= size i k) by (apply size_lower; [assumption|lia..]).
      destruct (accepts env token _ amountFormatted); [|discriminate].
      inversion Hrun as [[Htr Hend]]; subst tr.
      destruct (run fuel (i + size i k) (S (S k))) as [rest e] eqn:Hrest.
      simpl in Hend; subst e. simpl fst.
      assert (Hlen : Z.of_nat (List.length (JS.slice addresses i (i + size i k))) = size i k).
      { rewrite slice_length by (unfold addresses_length in *; lia). lia. }
      specialize (IH _ _ _ _ (conj (Z.add_nonneg_nonneg _ _ (proj1 Hi) Hsz) Hfit) Hrest).
      cbn [batches sizesWithin]. rewrite Hlen.
      destruct (Z.ltb_spec (i + size i k) len) as [Hmore|Hdone].
      * (* the loop goes on: the size was not clipped *)
        destruct fuel as [|fuel'].
        { apply schedule_stuck in Hrest. lia. }
        rewrite schedule_step in Hrest by assumption. cbv zeta in Hrest.
        destruct (accepts env token _ amountFormatted); [|discriminate].
        inversion Hrest as [[Htr Hend]]; subst rest. cbn [batches] in *.
        split.
        -- pose proof (Hr k) as Hd. clip_lia.
        -- replace (len - i - size i k) with (len - (i + size i k)) by lia. exact IH.
      * rewrite schedule_exit in Hrest by assumption. inversion Hrest; subst.
        simpl. lia.
    + rewrite schedule_exit in Hrun by assumption. inversion Hrun; subst.
      simpl. lia.
Qed.

(** With a fixed batch size [K] of at least one, the run from cursor [i]
    completes with [ceil((len - i) / K)] batches, and when [K] does not
    divide the number of remaining recipients the last batch holds the
    remainder. *)
Lemma schedule_fixed_size (K : Z) (fuel : nat) :
  drawsWithin env minBatchSize maxBatchSize -> alwaysAccepts env ->
  1 <= K -> minBatchSize = K -> maxBatchSize = K ->
  forall i k,
    0 <= i <= len -> len - i <= Z.of_nat fuel ->
    let bs := batches (fst (run fuel i k)) in
    snd (run fuel i k) = Exited len
    /\ Z.of_nat (List.length bs) = (len - i + K - 1) / K
    /\ ((len - i) mod K <> 0 ->
        exists init last,
          bs = (init ++ [last])%list
          /\ Z.of_nat (List.length last) = (len - i) mod K).
Proof.
  intros Hr Hacc HK Hmin Hmax.
  induction fuel as [|fuel IH]; intros i k Hi Hfuel bs; subst bs.
  - rewrite schedule_exit by lia. simpl.
    replace (len - i) with 0 by lia.
    repeat split; [f_equal; lia | | ].
    + symmetry. apply Z.div_small. lia.
    + rewrite Z.mod_0_l by lia. congruence.
  - destruct (Z.ltb_spec i len) as [Hlt|Hge].
    + rewrite schedule_step by assumption. cbv zeta. rewrite Hacc. cbn [fst snd batches].
      pose proof (size_fits i k) as Hfit.
      pose proof (Hr k) as Hd.
      assert (Hlen : Z.of_nat (List.length (JS.slice addresses i (i + size i k))) = size i k).
      { rewrite slice_length; unfold addresses_length in *; clip_lia. }
      destruct (Z.gtb_spec (i + K) len) as [Hclip|Hfull].
      * (* fewer than [K] recipients remain: this is the last batch *)
        assert (Hs : size i k = len - i).
        { clip_lia. }
        rewrite Hs in *. replace (i + (len - i)) with len in * by lia.
        rewrite schedule_exit by lia. simpl.
        repeat split.
        -- apply Z.div_unique with (r := len - i - 1); lia.
        -- intros _. eexists [], _. split; [reflexivity|].
           rewrite Hlen, Z.mod_small; lia.
      * assert (Hs : size i k = K).
        { clip_lia. }
        rewrite Hs in *.
        destruct (IH (i + K) (S (S k)) ltac:(lia) ltac:(lia)) as (Hend & Hcount & Hlast).
        repeat split.
        -- exact Hend.
        -- cbn [List.length]. rewrite Nat2Z.inj_succ, Hcount.
           replace (len - i + K - 1) with ((len - (i + K) + K - 1) + 1 * K) by lia.
           rewrite Z.div_add by lia. lia.
        -- intros Hmod.
           replace (len - i) with ((len - (i + K)) + 1 * K) in Hmod |- * by lia.
           rewrite Z.mod_add in Hmod |- * by lia.
           destruct (Hlast Hmod) as (init & last & -> & Hl).
           eexists (_ :: init), last. split; [reflexivity|exact Hl].
    + rewrite schedule_exit by assumption. simpl.
      replace (len - i) with 0 by lia.
      repeat split; [f_equal; lia | | ].
      * symmetry. apply Z.div_small. lia.
      * rewrite Z.mod_0_l by lia. congruence.
Qed.

(** The loop raises nothing but a rejected submission. *)
Lemma schedule_raised (fuel : nat) (i : Z) (k : nat) (e : error) :
  snd (run fuel i k) = Raised e -> e = SubmissionRejected.
Proof.
  revert i k. induction fuel as [|fuel IH]; intros i k.
  - simpl. destruct (i <? len); simpl; discriminate.
  - destruct (Z.ltb_spec i len) as [Hlt|Hge].
    + rewrite schedule_step by assumption. cbv zeta.
      destruct (accepts env token _ amountFormatted); simpl.
      * apply IH.
      * congruence.
    + rewrite schedule_exit by assumption. simpl. discriminate.
Qed.

(** Submissions and waits alternate, every submission of a complete run
    being followed by its wait. *)
Lemma schedule_paced (fuel : nat) (i : Z) (k : nat) (tr : list event) (j : Z) :
  run fuel i k = (tr, Exited j) -> paced tr.
Proof.
  revert i k tr. induction fuel as [|fuel IH]; intros i k tr Hrun.
  - pose proof (schedule_stuck _ _ _ _ Hrun) as Hge.
    rewrite schedule_exit in Hrun by assumption. inversion Hrun. constructor.
  - destruct (Z.ltb_spec i len) as [Hlt|Hge].
    + rewrite schedule_step in Hrun by assumption. cbv zeta in Hrun.
      destruct (accepts env token _ amountFormatted); [|discriminate].
      inversion Hrun as [[Htr Hend]].
      constructor. apply (IH (i + size i k) (S (S k))).
      now rewrite <- Hend, <- surjective_pairing.
    + rewrite schedule_exit in Hrun by assumption. inversion Hrun. constructor.
Qed.

End SchedulerProperties.

Lemma paced_sleep_after_batch (tr : list event) :
  paced tr ->
  forall pre ms post, tr = (pre ++ Sleep ms :: post)%list ->
    exists token batch amount pre',
      pre = (pre' ++ [BatchTransfer token batch amount])%list.
Proof.
  induction 1 as [|token batch amount ms0 tr Hp IH]; intros pre ms post E.
  - destruct pre; discriminate.
  - destruct pre as [|x [|y pre]]; simpl in E.
    + discriminate.
    + inversion E; subst. now exists token, batch, amount, [].
    + inversion E; subst.
      destruct (IH _ _ _ eq_refl) as (t' & b' & a' & pre' & ->).
      now exists t', b', a', (BatchTransfer token batch amount :: Sleep ms0 :: pre').
Qed.

Lemma paced_batch_before_sleep (tr : list event) :
  paced tr ->
  forall pre token batch amount post,
    tr = (pre ++ BatchTransfer token batch amount :: post)%list ->
    exists ms post', post = Sleep ms :: post'.
Proof.
  induction 1 as [|token0 batch0 amount0 ms0 tr Hp IH];
    intros pre token batch amount post E.
  - destruct pre; discriminate.
  - destruct pre as [|x [|y pre]]; simpl in E.
    + inversion E; subst. now exists ms0, tr.
    + inversion E.
    + inversion E; subst. apply (IH _ _ _ _ _ eq_refl).
Qed.

(** ** The pre-flight checks *)

Lemma checkConfig_ok (minBatchSize maxBatchSize minInterval maxInterval : Z) :
  checkConfig minBatchSize maxBatchSize minInterval maxInterval = Ok tt
  <-> minBatchSize <= maxBatchSize /\ minInterval <= maxInterval /\ maxBatchSize <= MAX_BATCH_SIZE.
Proof.
  unfold checkConfig.
  destruct (Z.gtb_spec minBatchSize maxBatchSize); [split; [discriminate|lia]|].
  destruct (Z.gtb_spec minInterval maxInterval); [split; [discriminate|lia]|].
  destruct (Z.gtb_spec maxBatchSize MAX_BATCH_SIZE); [split; [discriminate|lia]|].
  split; [lia|reflexivity].
Qed.

(** Once the configuration is accepted and both amounts are computed, the
    outcome of the pre-flight phase is decided by the balance comparison
    and then by the ownership comparison. *)
Lemma preflight_checks (env : Env) (taskArgs : TaskArgs)
      (amountFormatted : string) (cost : Z) :
  validated taskArgs ->
  perRecipient env taskArgs = Ok amountFormatted ->
  computedCost env taskArgs = Ok cost ->
  preflight env taskArgs =
    if holdings env taskArgs <? cost then Throw InsufficientFunds
    else if negb (String.eqb (ownerOf env (batcherAddress taskArgs))
                             (signerAddress env))
         then Throw NotOwner
         else Ok (recipientsOf env taskArgs, amountFormatted).
Proof.
  unfold validated, perRecipient, computedCost, recipientsOf, preflight.
  intros -> -> Hcost. cbn [bind].
  unfold BigNumber.lt.
  destruct (expectedCost _ _ _) as [c|e]; [|discriminate].
  cbn [bind] in *. rewrite Hcost. reflexivity.
Qed.

(** C4: with the configuration accepted and the amounts computed, the
    balance compared with the computed cost is the native balance of the
    batcher when [tokenNative] is set, and the balance of the batcher in
    the token when it is not.  In either case the action raises the
    insufficient-funds error exactly when that balance is below the cost,
    and then nothing has been submitted; a balance equal to the cost
    passes, a balance one unit short fails.  The other balance plays no
    part. *)
Theorem balance_check (env : Env) (fuel : nat) (taskArgs : TaskArgs)
        (amountFormatted : string) (cost : Z) :
  validated taskArgs ->
  perRecipient env taskArgs = Ok amountFormatted ->
  computedCost env taskArgs = Ok cost ->
  let run := sendBatchTransfer env fuel taskArgs in
  let coins := nativeBalanceOf env (batcherAddress taskArgs) in
  let tokens := tokenBalanceOf env (tokenAddress taskArgs) (batcherAddress taskArgs) in
  (tokenNative taskArgs = true ->
     (snd run = Raised InsufficientFunds <-> coins < cost)
     /\ (coins < cost -> fst run = [])
     /\ (coins = cost -> snd run <> Raised InsufficientFunds)
     /\ (coins = cost - 1 -> run = ([], Raised InsufficientFunds)))
  /\ (tokenNative taskArgs = false ->
     (snd run = Raised InsufficientFunds <-> tokens < cost)
     /\ (tokens < cost -> fst run = [])
     /\ (tokens = cost -> snd run <> Raised InsufficientFunds)
     /\ (tokens = cost - 1 -> run = ([], Raised InsufficientFunds))).
Proof.
  intros Hcfg Hper Hcost run coins tokens.
  assert (Hlow : holdings env taskArgs < cost -> run = ([], Raised InsufficientFunds)).
  { intros Hlt. unfold run, sendBatchTransfer.
    rewrite (preflight_checks _ _ _ _ Hcfg Hper Hcost).
    destruct (Z.ltb_spec (holdings env taskArgs) cost); [reflexivity|lia]. }
  assert (Hhigh : cost <= holdings env taskArgs -> snd run <> Raised InsufficientFunds).
  { intros Hge. unfold run, sendBatchTransfer.
    rewrite (preflight_checks _ _ _ _ Hcfg Hper Hcost).
    destruct (Z.ltb_spec (holdings env taskArgs) cost); [lia|].
    destruct (negb _); [simpl; discriminate|].
    intros Hr. apply schedule_raised in Hr. discriminate. }
  assert (Hall : forall held, holdings env taskArgs = held ->
            (snd run = Raised InsufficientFunds <-> held < cost)
            /\ (held < cost -> fst run = [])
            /\ (held = cost -> snd run <> Raised InsufficientFunds)
            /\ (held = cost - 1 -> run = ([], Raised InsufficientFunds))).
  { intros held <-. repeat split.
    - intros Hr. destruct (Z.lt_ge_cases (holdings env taskArgs) cost) as [|Hge]; [assumption|].
      now apply Hhigh in Hge.
    - intros Hlt. now rewrite (Hlow Hlt).
    - intros Hlt. now rewrite (Hlow Hlt).
    - intros Heq. apply Hhigh. lia.
    - intros Heq. apply Hlow. lia. }
  split; intros Hflag; apply Hall; unfold holdings; rewrite Hflag; reflexivity.
Qed.

Lemma balance_check_witness :
  let env := walletEnv [addrA; addrB; addrC] 6 4500000 4499999 (fun _ => zero) in
  let env' := walletEnv [addrA; addrB; addrC] 6 4499999 4500000 (fun _ => zero) in
  let ofToken := sampleArgs (Number.ofRatio 3 2) None None in
  let ofNative := nativeArgs (Number.ofRatio 3 2) None None in
  computedCost env ofToken = Ok 4500000
  /\ computedCost env ofNative = Ok 4500000
  /\ snd (sendBatchTransfer env 1 ofToken) <> Raised InsufficientFunds
  /\ sendBatchTransfer env 1 ofNative = ([], Raised InsufficientFunds)
  /\ snd (sendBatchTransfer env' 1 ofNative) <> Raised InsufficientFunds
  /\ sendBatchTransfer env' 1 ofToken = ([], Raised InsufficientFunds).
Proof.
  intros env env' ofToken ofNative.
  pose proof (balance_check env 1%nat ofToken "1500000" 4500000
                ltac:(reflexivity) ltac:(vm_compute; reflexivity)
                ltac:(vm_compute; reflexivity)) as [_ HT].
  pose proof (balance_check env 1%nat ofNative "1500000" 4500000
                ltac:(reflexivity) ltac:(vm_compute; reflexivity)
                ltac:(vm_compute; reflexivity)) as [HN _].
  pose proof (balance_check env' 1%nat ofNative "1500000" 4500000
                ltac:(reflexivity) ltac:(vm_compute; reflexivity)
                ltac:(vm_compute; reflexivity)) as [HN' _].
  pose proof (balance_check env' 1%nat ofToken "1500000" 4500000
                ltac:(reflexivity) ltac:(vm_compute; reflexivity)
                ltac:(vm_compute; reflexivity)) as [_ HT'].
  cbv zeta in HT, HN, HN', HT'.
  specialize (HT eq_refl). specialize (HN eq_refl).
  specialize (HN' eq_refl). specialize (HT' eq_refl).
  split; [vm_compute; reflexivity|]. split; [vm_compute; reflexivity|].
  split; [apply (proj1 (proj2 (proj2 HT))); reflexivity|].
  split; [apply (proj2 (proj2 (proj2 HN))); reflexivity|].
  split; [apply (proj1 (proj2 (proj2 HN'))); reflexivity|].
  apply (proj2 (proj2 (proj2 HT'))). reflexivity.
Defined.

(** What a successful pre-flight phase hands to the loop. *)
Lemma preflight_result (env : Env) (taskArgs : TaskArgs)
      (addresses : list string) (amountFormatted : string) :
  preflight env taskArgs = Ok (addresses, amountFormatted) ->
  validated taskArgs
  /\ addresses = recipientsOf env taskArgs
  /\ perRecipient env taskArgs = Ok amountFormatted.
Proof.
  unfold preflight, validated, recipientsOf, perRecipient.
  destruct (checkConfig _ _ _ _) as [[]|e]; [|discriminate]. cbn [bind].
  destruct (formatWithDecimals (Number.toString _) _) as [af|e]; [|discriminate].
  cbn [bind].
  destruct (expectedCost _ _ _) as [c|e]; [|discriminate]. cbn [bind].
  destruct (BigNumber.lt _ _) as [[]|e]; try discriminate. cbn [bind].
  destruct (negb _); [discriminate|].
  intros H. inversion H. auto.
Qed.

(** A run that exits went through the loop on the parsed recipients. *)
Lemma run_exited (env : Env) (fuel : nat) (taskArgs : TaskArgs)
      (tr : list event) (i : Z) :
  sendBatchTransfer env fuel taskArgs = (tr, Exited i) ->
  exists amountFormatted,
    validated taskArgs
    /\ schedule env
         (if tokenNative taskArgs then ADDRESS_ZERO else tokenAddress taskArgs)
         amountFormatted
         (nullish (minBatchSize taskArgs) MAX_BATCH_SIZE)
         (nullish (maxBatchSize taskArgs) MAX_BATCH_SIZE)
         (nullish (minInterval taskArgs) DEFAULT_INTERVAL)
         (nullish (maxInterval taskArgs) DEFAULT_INTERVAL)
         (recipientsOf env taskArgs) fuel 0 0%nat = (tr, Exited i).
Proof.
  unfold sendBatchTransfer.
  destruct (preflight env taskArgs) as [[addresses af]|e] eqn:Hpre; [|discriminate].
  destruct (preflight_result _ _ _ _ Hpre) as (Hv & -> & _).
  intros H. now exists af.
Qed.

(** With a non-negative minimum batch size, a complete run partitions the
    recipient list: the cursor ends at its length, the batches in order
    make up the list, their sizes add up to its length, all but the last
    are within the configured range and the last takes what remains. *)
Lemma run_partitions (env : Env) (fuel : nat) (taskArgs : TaskArgs)
      (tr : list event) (i : Z) :
  drawsWithin env (nullish (minBatchSize taskArgs) MAX_BATCH_SIZE)
                  (nullish (maxBatchSize taskArgs) MAX_BATCH_SIZE) ->
  0 <= nullish (minBatchSize taskArgs) MAX_BATCH_SIZE ->
  sendBatchTransfer env fuel taskArgs = (tr, Exited i) ->
  let recipients := recipientsOf env taskArgs in
  i = Z.of_nat (List.length recipients)
  /\ List.concat (batches tr) = recipients
  /\ list_sum (map (@List.length string) (batches tr)) = List.length recipients
  /\ sizesWithin (nullish (minBatchSize taskArgs) MAX_BATCH_SIZE)
                 (nullish (maxBatchSize taskArgs) MAX_BATCH_SIZE)
                 (Z.of_nat (List.length recipients)) (batches tr).
Proof.
  intros Hr Hmin Hrun recipients.
  destruct (run_exited _ _ _ _ _ Hrun) as (af & _ & Hloop).
  assert (Hi : 0 <= 0 <= addresses_length recipients)
    by (unfold addresses_length; lia).
  destruct (schedule_partition _ _ _ _ _ _ _ _ fuel Hr Hmin _ _ _ _ Hi Hloop)
    as [-> Hcat].
  pose proof (schedule_sizes _ _ _ _ _ _ _ _ fuel Hr Hmin _ _ _ _ Hi Hloop)
    as Hsz.
  simpl in Hcat. rewrite Z.sub_0_r in Hsz.
  repeat split; try assumption.
  rewrite <- length_concat. now rewrite Hcat.
Qed.

(** With a minimum batch size of at least one, a run that passes the
    pre-flight phase exits, with the cursor at the end of the list, within
    as many iterations as there are recipients. *)
Lemma run_terminates (env : Env) (fuel : nat) (taskArgs : TaskArgs)
      (addresses : list string) (amountFormatted : string) :
  drawsWithin env (nullish (minBatchSize taskArgs) MAX_BATCH_SIZE)
                  (nullish (maxBatchSize taskArgs) MAX_BATCH_SIZE) ->
  alwaysAccepts env ->
  1 <= nullish (minBatchSize taskArgs) MAX_BATCH_SIZE ->
  preflight env taskArgs = Ok (addresses, amountFormatted) ->
  (List.length addresses <= fuel)%nat ->
  snd (sendBatchTransfer env fuel taskArgs) = Exited (Z.of_nat (List.length addresses)).
Proof.
  intros Hr Hacc Hmin Hpre Hfuel. unfold sendBatchTransfer. rewrite Hpre.
  apply schedule_terminates; try assumption; unfold addresses_length; lia.
Qed.

(** With both batch sizes zero the cursor never moves: every iteration
    submits an empty batch and the loop is still running when any amount
    of fuel is spent. *)
Lemma schedule_zero_size (env : Env) (token amountFormatted : string)
      (minInterval maxInterval : Z) (addresses : list string) :
  drawsWithin env 0 0 -> alwaysAccepts env ->
  forall fuel i k,
    0 <= i < addresses_length addresses ->
    let run := schedule env token amountFormatted 0 0 minInterval maxInterval addresses fuel i k in
    snd run = Unfinished /\ batches (fst run) = List.repeat [] fuel.
Proof.
  intros Hr Hacc. induction fuel as [|fuel IH]; intros i k Hi run; subst run.
  - simpl. destruct (Z.ltb_spec i (addresses_length addresses)); [now split|lia].
  - rewrite schedule_step by lia. cbv zeta. rewrite Hacc.
    pose proof (Hr k) as Hd.
    assert (Hs : clip (addresses_length addresses) i (randomInt (random env k) 0 0) = 0).
    { clip_lia. }
    rewrite Hs, Z.add_0_r. cbn [fst snd batches List.repeat].
    destruct (IH i (S (S k)) Hi) as [Hend Hb]. split; [exact Hend|].
    rewrite Hb. f_equal.
    rewrite slice_span by (unfold addresses_length in *; lia).
    now rewrite Z.sub_diag.
Qed.

(** With both batch sizes equal to [K >= 1] a run that passes the
    pre-flight phase completes with [ceil(n / K)] batches over its [n]
    recipients, the last one holding [n mod K] of them when [K] does not
    divide [n]. *)
Lemma run_fixed_size (env : Env) (fuel : nat) (taskArgs : TaskArgs)
      (addresses : list string) (amountFormatted : string) (K : Z) :
  drawsWithin env (nullish (minBatchSize taskArgs) MAX_BATCH_SIZE)
                  (nullish (maxBatchSize taskArgs) MAX_BATCH_SIZE) ->
  alwaysAccepts env ->
  1 <= K ->
  nullish (minBatchSize taskArgs) MAX_BATCH_SIZE = K ->
  nullish (maxBatchSize taskArgs) MAX_BATCH_SIZE = K ->
  preflight env taskArgs = Ok (addresses, amountFormatted) ->
  (List.length addresses <= fuel)%nat ->
  let n := Z.of_nat (List.length addresses) in
  let bs := batches (fst (sendBatchTransfer env fuel taskArgs)) in
  snd (sendBatchTransfer env fuel taskArgs) = Exited n
  /\ Z.of_nat (List.length bs) = (n + K - 1) / K
  /\ (n mod K <> 0 ->
      exists init last,
        bs = (init ++ [last])%list /\ Z.of_nat (List.length last) = n mod K).
Proof.
  intros Hr Hacc HK Hmin Hmax Hpre Hfuel n bs. subst n bs.
  unfold sendBatchTransfer. rewrite Hpre.
  pose proof (schedule_fixed_size env
                (if tokenNative taskArgs then ADDRESS_ZERO else tokenAddress taskArgs)
                amountFormatted _ _
                (nullish (minInterval taskArgs) DEFAULT_INTERVAL)
                (nullish (maxInterval taskArgs) DEFAULT_INTERVAL)
                addresses K fuel Hr Hacc HK Hmin Hmax 0 0%nat) as H.
  unfold addresses_length in H. rewrite Z.sub_0_r in H.
  apply H; lia.
Qed.

(** ** Sample environments *)

Lemma constant_random_valid (lines : list string) (decimals balance : Z)
      (r : Number.t) :
  Number.inUnitInterval r = true ->
  randomValid (sampleEnv lines decimals balance (fun _ => r)).
Proof. intros H k. exact H. Qed.

Lemma constant_draws_within (lines : list string) (decimals balance : Z)
      (r : Number.t) (lo hi : Z) :
  lo <= randomInt r lo hi <= hi ->
  drawsWithin (sampleEnv lines decimals balance (fun _ => r)) lo hi.
Proof. intros H k. exact H. Qed.

Lemma sample_always_accepts (lines : list string) (decimals balance : Z)
      (rnd : nat -> Number.t) :
  alwaysAccepts (sampleEnv lines decimals balance rnd).
Proof. intros token batch amount. reflexivity. Qed.

(** With both batch sizes zero and one recipient, the sample run is still
    in its loop after any number of iterations, all its batches empty. *)
Lemma zero_batch_size_run (fuel : nat) :
  let env := sampleEnv [addrA] 0 1 (fun _ => zero) in
  let taskArgs := sampleArgs (Number.ofZ 1) (Some 0) (Some 0) in
  snd (sendBatchTransfer env fuel taskArgs) = Unfinished
  /\ batches (fst (sendBatchTransfer env fuel taskArgs)) = List.repeat [] fuel.
Proof.
  intros env taskArgs. unfold sendBatchTransfer.
  replace (preflight env taskArgs) with (Ok ([addrA], "1"))
    by (vm_compute; reflexivity).
  apply schedule_zero_size.
  - apply constant_draws_within. vm_compute. split; discriminate.
  - apply sample_always_accepts.
  - vm_compute. split; [discriminate|reflexivity].
Qed.

(** ** Sample runs inside the range *)

(** The hypotheses of [run_fixed_size] at work: five recipients in batches
    of two, every random value 0.5. *)
Example fixed_size_sample :
  let env := sampleEnv [addrA; addrB; addrC; addrD; addrE] 0 5 (fun _ => half) in
  let taskArgs := sampleArgs (Number.ofZ 1) (Some 2) (Some 2) in
  let run := sendBatchTransfer env 5 taskArgs in
  snd run = Exited 5
  /\ batches (fst run) = [[addrA; addrB]; [addrC; addrD]; [addrE]]
  /\ Z.of_nat (List.length (batches (fst run))) = (5 + 2 - 1) / 2
  /\ exists init last,
       batches (fst run) = (init ++ [last])%list
       /\ Z.of_nat (List.length last) = 5 mod 2.
Proof.
  intros env taskArgs run.
  destruct (run_fixed_size env 5 taskArgs
              [addrA; addrB; addrC; addrD; addrE] "1" 2) as (Hend & Hcount & Hlast).
  - apply constant_draws_within. vm_compute. split; discriminate.
  - apply sample_always_accepts.
  - lia.
  - reflexivity.
  - reflexivity.
  - vm_compute. reflexivity.
  - simpl. lia.
  - split; [exact Hend|]. split; [vm_compute; reflexivity|].
    split; [exact Hcount|]. apply Hlast. vm_compute. discriminate.
Qed.

(** The hypotheses of [run_partitions] and [run_terminates] at work: the
    default configuration over three recipients makes one batch. *)
Example default_sample :
  let env := sampleEnv [addrA; addrB; addrC] 0 3 (fun _ => half) in
  let taskArgs := sampleArgs (Number.ofZ 1) None None in
  exists tr,
    sendBatchTransfer env 3 taskArgs = (tr, Exited 3)
    /\ tr = [BatchTransfer tokenT [addrA; addrB; addrC] "1"; Sleep 600000]
    /\ List.concat (batches tr) = recipientsOf env taskArgs.
Proof.
  intros env taskArgs.
  assert (Hrun : sendBatchTransfer env 3 taskArgs
                 = ([BatchTransfer tokenT [addrA; addrB; addrC] "1"; Sleep 600000],
                    Exited 3)) by (vm_compute; reflexivity).
  eexists. split; [exact Hrun|]. split; [reflexivity|].
  refine (proj1 (proj2 (run_partitions env 3 taskArgs _ 3 _ _ Hrun))).
  - apply constant_draws_within. vm_compute. split; discriminate.
  - vm_compute. discriminate.
Qed.

(** ** The claims on the scheduler, at the inputs where they break *)

(** C1, evaluated where it fails: [minBatchSize = -1] and
    [maxBatchSize = 2] pass the configuration checks; with the draws 2, -1
    and 2 the run over three recipients completes, its second batch is
    empty and moves the cursor back, and the third batch repeats the
    second recipient. *)
Theorem negative_batch_size_repeats_a_recipient :
  let env := sampleEnv [addrA; addrB; addrC] 0 3
               (fun k => match k with 2%nat => zero | _ => threeQuarters end) in
  let taskArgs := sampleArgs (Number.ofZ 1) (Some (-1)) (Some 2) in
  validated taskArgs
  /\ randomValid env
  /\ exists tr,
       sendBatchTransfer env 3 taskArgs = (tr, Exited 3)
       /\ batches tr = [[addrA; addrB]; []; [addrB; addrC]]
       /\ List.concat (batches tr) <> recipientsOf env taskArgs.
Proof.
  intros env taskArgs. split; [reflexivity|]. split.
  - intros [|[|[|k]]]; reflexivity.
  - eexists. split; [vm_compute; reflexivity|].
    split; [reflexivity|]. vm_compute. discriminate.
Qed.

(** C2, evaluated where it fails.  With [minBatchSize = -1] and
    [maxBatchSize = 2] the first batch of a complete run over four
    recipients holds three of them.  With both sizes zero every batch is
    empty and the run has no last batch, whatever the number of
    iterations.  With both sizes 2 and the random value 1 - 2^-52 the sum
    [r * 1 + 2] rounds to 3: the run over five recipients makes two
    batches, of three and two recipients, where the claim has three
    batches, the last of one; in the default configuration the same
    random value draws 501. *)
Theorem batch_size_leaves_the_bounds :
  (let env := sampleEnv [addrA; addrB; addrC; addrD] 0 4
                (fun k => match k with 0%nat => zero | _ => threeQuarters end) in
   let taskArgs := sampleArgs (Number.ofZ 1) (Some (-1)) (Some 2) in
   validated taskArgs
   /\ randomValid env
   /\ exists tr,
        sendBatchTransfer env 4 taskArgs = (tr, Exited 4)
        /\ batches tr = [[addrA; addrB; addrC]; []; [addrB; addrC]; [addrD]])
  /\ (let env := sampleEnv [addrA] 0 1 (fun _ => zero) in
      let taskArgs := sampleArgs (Number.ofZ 1) (Some 0) (Some 0) in
      validated taskArgs
      /\ randomValid env
      /\ forall fuel,
           snd (sendBatchTransfer env fuel taskArgs) = Unfinished
           /\ batches (fst (sendBatchTransfer env fuel taskArgs))
              = List.repeat [] fuel)
  /\ (let env := sampleEnv [addrA; addrB; addrC; addrD; addrE] 0 5
                   (fun _ => almostOne) in
      let taskArgs := sampleArgs (Number.ofZ 1) (Some 2) (Some 2) in
      validated taskArgs
      /\ randomValid env
      /\ Number.toString almostOne = "0.9999999999999998"
      /\ (exists tr,
            sendBatchTransfer env 2 taskArgs = (tr, Exited 5)
            /\ batches tr = [[addrA; addrB; addrC]; [addrD; addrE]])
      /\ randomInt almostOne MAX_BATCH_SIZE MAX_BATCH_SIZE = 501).
Proof.
  split; [|split].
  - intros env taskArgs. split; [reflexivity|]. split.
    + intros [|k]; reflexivity.
    + eexists. split; vm_compute; reflexivity.
  - intros env taskArgs. split; [reflexivity|].
    split; [now apply constant_random_valid|].
    apply zero_batch_size_run.
  - intros env taskArgs. split; [reflexivity|].
    split; [now apply constant_random_valid|].
    split; [vm_compute; reflexivity|].
    split; [|vm_compute; reflexivity].
    eexists. split; vm_compute; reflexivity.
Qed.

(** C9, evaluated where it fails: [minBatchSize = maxBatchSize = 0] passes
    the configuration checks, and with one recipient the loop is still
    running after any number of iterations. *)
Theorem zero_batch_size_never_exits :
  let env := sampleEnv [addrA] 0 1 (fun _ => zero) in
  let taskArgs := sampleArgs (Number.ofZ 1) (Some 0) (Some 0) in
  validated taskArgs
  /\ randomValid env
  /\ alwaysAccepts env
  /\ forall fuel, snd (sendBatchTransfer env fuel taskArgs) = Unfinished.
Proof.
  intros env taskArgs. split; [reflexivity|].
  split; [now apply constant_random_valid|].
  split; [apply sample_always_accepts|].
  intros fuel. apply zero_batch_size_run.
Qed.

(** C3, evaluated where it fails: three recipients, the amount 0.1 and a
    token of 18 decimals.  The per-recipient amount is 10^17 base units,
    but the cost is computed from the binary64 product 3 * 0.1 and comes
    out 40 base units above 3 * 10^17, so that holdings of exactly
    3 * 10^17 are rejected; at 6 decimals the same product makes the cost
    computation throw. *)
Theorem expectedCost_rounds_in_binary :
  let env := sampleEnv [addrA; addrB; addrC] 18 (3 * 10 ^ 17) (fun _ => zero) in
  let taskArgs := sampleArgs oneTenth None None in
  perRecipient env taskArgs = Ok "0100000000000000000"
  /\ BigNumber.from "0100000000000000000" = Ok (10 ^ 17)
  /\ computedCost env taskArgs = Ok (3 * 10 ^ 17 + 40)
  /\ holdings env taskArgs = 3 * 10 ^ 17
  /\ (forall fuel,
         sendBatchTransfer env fuel taskArgs = ([], Raised InsufficientFunds))
  /\ expectedCost 3 oneTenth 6 = Throw RangeError.
Proof.
  intros env taskArgs.
  repeat split; try intros fuel; vm_compute; reflexivity.
Qed.

(** ** Pacing *)

(** C10 as stated fails: in the complete run over one recipient the only
    wait comes after the only, and final, submission. *)
Lemma final_batch_is_followed_by_a_wait :
  let env := sampleEnv [addrA] 0 1 (fun _ => zero) in
  let taskArgs := sampleArgs (Number.ofZ 1) None None in
  exists tr,
    sendBatchTransfer env 1 taskArgs = (tr, Exited 1)
    /\ tr = [BatchTransfer tokenT [addrA] "1"; Sleep 600000]
    /\ ~ delaysOnlyBetweenBatches tr.
Proof.
  intros env taskArgs. eexists. split; [vm_compute; reflexivity|].
  split; [reflexivity|].
  intros H.
  destruct (H [BatchTransfer tokenT [addrA] "1"] 600000 [] eq_refl)
    as [_ (token & batch & amount & [])].
Qed.

(** C10, amended: in every complete run each wait comes right after a
    submission and each submission, the final one included, is followed
    right away by a wait. *)
Theorem every_batch_is_followed_by_its_wait (env : Env) (fuel : nat)
        (taskArgs : TaskArgs) (tr : list event) (i : Z) :
  sendBatchTransfer env fuel taskArgs = (tr, Exited i) ->
  (forall pre ms post,
      tr = (pre ++ Sleep ms :: post)%list ->
      exists token batch amount pre',
        pre = (pre' ++ [BatchTransfer token batch amount])%list)
  /\ (forall pre token batch amount post,
         tr = (pre ++ BatchTransfer token batch amount :: post)%list ->
         exists ms post', post = Sleep ms :: post').
Proof.
  intros Hrun.
  destruct (run_exited _ _ _ _ _ Hrun) as (af & _ & Hloop).
  apply schedule_paced in Hloop.
  split.
  - now apply paced_sleep_after_batch.
  - now apply paced_batch_before_sleep.
Qed.

Lemma every_batch_is_followed_by_its_wait_witness :
  let env := sampleEnv [addrA; addrB] 0 2 (fun _ => zero) in
  let taskArgs := sampleArgs (Number.ofZ 1) (Some 1) (Some 1) in
  let tr := [BatchTransfer tokenT [addrA] "1"; Sleep 600000;
             BatchTransfer tokenT [addrB] "1"; Sleep 600000] in
  sendBatchTransfer env 2 taskArgs = (tr, Exited 2)
  /\ (forall pre ms post,
         tr = (pre ++ Sleep ms :: post)%list ->
         exists token batch amount pre',
           pre = (pre' ++ [BatchTransfer token batch amount])%list)
  /\ (forall pre token batch amount post,
         tr = (pre ++ BatchTransfer token batch amount :: post)%list ->
         exists ms post', post = Sleep ms :: post').
Proof.
  intros env taskArgs tr.
  assert (Hrun : sendBatchTransfer env 2 taskArgs = (tr, Exited 2))
    by (vm_compute; reflexivity).
  split; [exact Hrun|].
  exact (every_batch_is_followed_by_its_wait env 2%nat taskArgs tr 2 Hrun).
Defined.

(** * Further properties of the task *)

(** ** Slices and the loop *)

Lemma firstn_incl {A} (n : nat) (l : list A) : incl (firstn n l) l.
Proof.
  intros x Hx. rewrite <- (firstn_skipn n l). apply in_or_app. now left.
Qed.

Lemma skipn_incl {A} (n : nat) (l : list A) : incl (skipn n l) l.
Proof.
  intros x Hx. rewrite <- (firstn_skipn n l). apply in_or_app. now right.
Qed.

Lemma slice_incl {A} (a : list A) (s e : Z) : incl (JS.slice a s e) a.
Proof.
  unfold JS.slice. intros x Hx.
  eapply skipn_incl, firstn_incl, Hx.
Qed.

Lemma firstn_then_firstn {A} (n m : nat) (l : list A) :
  (firstn n l ++ firstn m (skipn n l))%list = firstn (n + m) l.
Proof.
  revert l. induction n as [|n IH]; intros l; [reflexivity|].
  destruct l as [|x l]; simpl.
  - now rewrite firstn_nil.
  - now rewrite IH.
Qed.

Section SchedulerRuns.

Variable env : Env.
Variable token amountFormatted : string.
Variables minBatchSize maxBatchSize minInterval maxInterval : Z.
Variable addresses : list string.

Local Abbreviation len := (addresses_length addresses).
Local Abbreviation run :=
  (schedule env token amountFormatted minBatchSize maxBatchSize minInterval maxInterval addresses).
Local Abbreviation size i k :=
  (clip len i (randomInt (random env k) minBatchSize maxBatchSize)).

Lemma schedule_no_fuel (i : Z) (k : nat) : fst (run 0 i k) = [].
Proof. simpl. now destruct (i <? len). Qed.

(** What the loop submits and how long it waits. *)
Lemma schedule_events (fuel : nat) :
  forall i k ev,
    In ev (fst (run fuel i k)) ->
    match ev with
    | BatchTransfer t b a => t = token /\ a = amountFormatted /\ incl b addresses
    | Sleep ms =>
        exists k', ms = randomInt (random env k') minInterval maxInterval * 60 * 1000
    end.
Proof.
  induction fuel as [|fuel IH]; intros i k ev Hin.
  - rewrite schedule_no_fuel in Hin. destruct Hin.
  - destruct (Z.ltb_spec i len) as [Hlt|Hge].
    + rewrite schedule_step in Hin by assumption. cbv zeta in Hin.
      destruct (accepts env token _ amountFormatted); cbn [fst] in Hin.
      * destruct Hin as [<-|[<-|Hin]].
        -- repeat split. apply slice_incl.
        -- now exists (S k).
        -- exact (IH _ _ _ Hin).
      * destruct Hin as [<-|[]]. repeat split. apply slice_incl.
    + rewrite schedule_exit in Hin by assumption. destruct Hin.
Qed.

(** Batch lengths in any run, complete or not. *)
Lemma schedule_batch_lengths (fuel : nat) :
  drawsWithin env minBatchSize maxBatchSize -> 0 <= minBatchSize ->
  forall i k b,
    0 <= i ->
    In b (batches (fst (run fuel i k))) ->
    Z.of_nat (List.length b) <= maxBatchSize
    /\ (1 <= minBatchSize -> 1 <= Z.of_nat (List.length b)).
Proof.
  intros Hr Hmin. induction fuel as [|fuel IH]; intros i k b Hi Hin.
  - rewrite schedule_no_fuel in Hin. destruct Hin.
  - destruct (Z.ltb_spec i len) as [Hlt|Hge].
    + rewrite schedule_step in Hin by assumption. cbv zeta in Hin.
      assert (Hfit : i + size i k <= len) by clip_lia.
      assert (Hsz : 0 <= size i k) by (apply size_lower; [assumption|lia..]).
      assert (Hlen : Z.of_nat (List.length (JS.slice addresses i (i + size i k))) = size i k).
      { rewrite slice_length by (unfold addresses_length in *; lia). lia. }
      assert (Hb : size i k <= maxBatchSize /\ (1 <= minBatchSize -> 1 <= size i k)).
      { split.
        - pose proof (Hr k). clip_lia.
        - intros H1. apply size_lower; [assumption|lia..]. }
      destruct (accepts env token _ amountFormatted); cbn [fst batches] in Hin.
      * destruct Hin as [<-|Hin]; [now rewrite Hlen|].
        apply (IH (i + size i k) (S (S k))); [lia|assumption].
      * destruct Hin as [<-|[]]. now rewrite Hlen.
    + rewrite schedule_exit in Hin by assumption. destruct Hin.
Qed.

(** The batches of any run, in order, are a prefix of what was left of the
    list. *)
Lemma schedule_prefix (fuel : nat) :
  drawsWithin env minBatchSize maxBatchSize -> 0 <= minBatchSize ->
  forall i k,
    0 <= i ->
    exists m,
      List.concat (batches (fst (run fuel i k)))
      = firstn m (skipn (Z.to_nat i) addresses).
Proof.
  intros Hr Hmin. induction fuel as [|fuel IH]; intros i k Hi.
  - rewrite schedule_no_fuel. now exists 0%nat.
  - destruct (Z.ltb_spec i len) as [Hlt|Hge].
    + rewrite schedule_step by assumption. cbv zeta.
      assert (Hfit : i + size i k <= len) by clip_lia.
      assert (Hsz : 0 <= size i k) by (apply size_lower; [assumption|lia..]).
      assert (Hslice : JS.slice addresses i (i + size i k)
                       = firstn (Z.to_nat (size i k)) (skipn (Z.to_nat i) addresses)).
      { rewrite slice_span by (unfold addresses_length in *; lia).
        f_equal. lia. }
      destruct (accepts env token _ amountFormatted); cbn [fst batches List.concat].
      * destruct (IH (i + size i k) (S (S k)) ltac:(lia)) as [m Hm].
        exists (Z.to_nat (size i k) + m)%nat.
        rewrite Hm, Hslice, <- firstn_then_firstn, skipn_skipn.
        do 3 f_equal. lia.
      * exists (Z.to_nat (size i k)). now rewrite app_nil_r.
    + rewrite schedule_exit by assumption. now exists 0%nat.
Qed.

(** How a run can end: a raised run stops at the batch the ledger
    rejected, everything before it accepted and paced; any other run is
    paced throughout. *)
Lemma schedule_endings (fuel : nat) :
  forall i k,
    match snd (run fuel i k) with
    | Raised e =>
        e = SubmissionRejected
        /\ exists pre b,
             fst (run fuel i k)
             = (pre ++ [BatchTransfer token b amountFormatted])%list
             /\ accepts env token b amountFormatted = false
             /\ paced pre
             /\ (forall b', In b' (batches pre) ->
                            accepts env token b' amountFormatted = true)
    | _ =>
        paced (fst (run fuel i k))
        /\ (forall b', In b' (batches (fst (run fuel i k))) ->
                       accepts env token b' amountFormatted = true)
    end.
Proof.
  induction fuel as [|fuel IH]; intros i k.
  - simpl. destruct (i <? len); simpl; (split; [constructor|intros b' []]).
  - destruct (Z.ltb_spec i len) as [Hlt|Hge].
    + rewrite schedule_step by assumption. cbv zeta.
      destruct (accepts env token _ amountFormatted) eqn:Hacc; cbn [fst snd].
      * specialize (IH (i + size i k) (S (S k))).
        destruct (snd (run fuel (i + size i k) (S (S k)))).
        -- destruct IH as [Hp Ha]. split; [now constructor|].
           intros b' [<-|Hb']; [exact Hacc|now apply Ha].
        -- destruct IH as (-> & pre & b & Hfst & Hrej & Hp & Ha).
           split; [reflexivity|].
           eexists (_ :: _ :: pre), b. rewrite Hfst.
           split; [reflexivity|]. split; [exact Hrej|].
           split; [now constructor|].
           intros b' [<-|Hb']; [exact Hacc|now apply Ha].
        -- destruct IH as [Hp Ha]. split; [now constructor|].
           intros b' [<-|Hb']; [exact Hacc|now apply Ha].
      * split; [reflexivity|]. eexists [], _.
        split; [reflexivity|]. split; [exact Hacc|].
        split; [constructor|intros b' []].
    + rewrite schedule_exit by assumption. simpl.
      split; [constructor|intros b' []].
Qed.

(** The number of batches of a complete run, against the recipients it
    covers. *)
Lemma schedule_count (fuel : nat) :
  drawsWithin env minBatchSize maxBatchSize -> 1 <= minBatchSize ->
  forall i k tr j,
    0 <= i <= len ->
    run fuel i k = (tr, Exited j) ->
    let c := Z.of_nat (List.length (batches tr)) in
    len - i <= c * maxBatchSize
    /\ (len - i = 0 -> c = 0)
    /\ (0 < len - i -> 1 <= c /\ (c - 1) * minBatchSize < len - i).
Proof.
  intros Hr Hmin. induction fuel as [|fuel IH]; intros i k tr j Hi Hrun c; subst c.
  - pose proof (schedule_stuck _ _ _ _ _ _ _ _ _ _ _ _ Hrun) as Hge.
    rewrite schedule_exit in Hrun by assumption. inversion Hrun; subst.
    simpl. lia.
  - destruct (Z.ltb_spec i len) as [Hlt|Hge].
    + rewrite schedule_step in Hrun by assumption. cbv zeta in Hrun.
      assert (Hfit : i + size i k <= len) by clip_lia.
      assert (Hsz : 1 <= size i k) by (apply size_lower; [assumption|lia..]).
      pose proof (Hr k) as Hd.
      assert (Hmax : size i k <= maxBatchSize) by clip_lia.
      assert (Hfull : i + size i k < len -> minBatchSize <= size i k) by clip_lia.
      destruct (accepts env token _ amountFormatted); [|discriminate].
      inversion Hrun as [[Htr Hend]]; subst tr.
      destruct (run fuel (i + size i k) (S (S k))) as [rest e] eqn:Hrest.
      simpl in Hend; subst e. cbn [fst batches List.length].
      specialize (IH (i + size i k) (S (S k)) rest j ltac:(lia) Hrest). cbv zeta in IH.
      destruct IH as (Hup & Hzero & Hpos).
      rewrite Nat2Z.inj_succ.
      set (c' := Z.of_nat (List.length (batches rest))) in *.
      assert (Hc' : 0 <= c') by (unfold c'; lia).
      split; [nia|]. split; [lia|]. intros _. split; [lia|].
      destruct (Z.eq_dec (len - (i + size i k)) 0) as [E|E].
      * rewrite (Hzero E). lia.
      * destruct (Hpos ltac:(lia)) as [Hc Hlow]. specialize (Hfull ltac:(lia)). nia.
    + rewrite schedule_exit in Hrun by assumption. inversion Hrun; subst.
      simpl. lia.
Qed.

End SchedulerRuns.

(** ** The outcomes of the pre-flight phase *)

Lemma formatWithDecimals_throws (value : string) (decimals : Z) (e : error) :
  formatWithDecimals value decimals = Throw e -> e = RangeError.
Proof.
  unfold formatWithDecimals, JS.repeat.
  destruct (JS.indexOf "." value =? -1).
  - destruct (decimals <? 0); simpl; congruence.
  - destruct (decimals - _ <? 0); simpl; congruence.
Qed.

Lemma BigNumber_from_throws (value : string) (e : error) :
  BigNumber.from value = Throw e -> e = InvalidBigNumber.
Proof.
  unfold BigNumber.from.
  destruct (match value with String _ _ => _ | _ => _ end); congruence.
Qed.

(** Everything a successful pre-flight phase has established. *)
Lemma preflight_passed (env : Env) (taskArgs : TaskArgs)
      (addresses : list string) (amountFormatted : string) :
  preflight env taskArgs = Ok (addresses, amountFormatted) ->
  validated taskArgs
  /\ addresses = recipientsOf env taskArgs
  /\ perRecipient env taskArgs = Ok amountFormatted
  /\ (exists cost,
         computedCost env taskArgs = Ok cost /\ cost <= holdings env taskArgs)
  /\ ownerOf env (batcherAddress taskArgs) = signerAddress env.
Proof.
  unfold preflight, validated, recipientsOf, perRecipient, computedCost,
    BigNumber.lt.
  destruct (checkConfig _ _ _ _) as [[]|e]; [|discriminate]. cbn [bind].
  destruct (formatWithDecimals (Number.toString _) _) as [af|e]; [|discriminate].
  cbn [bind].
  destruct (expectedCost _ _ _) as [c|e]; [|discriminate]. cbn [bind].
  destruct (BigNumber.from c) as [cost|e]; [|discriminate]. cbn [bind].
  destruct (Z.ltb_spec (holdings env taskArgs) cost); [discriminate|].
  destruct (String.eqb_spec (ownerOf env (batcherAddress taskArgs))
                            (signerAddress env)); [|discriminate].
  intros Heq. inversion Heq. repeat split; try assumption. now exists cost.
Qed.

(** The exceptions of the pre-flight phase: a configuration error exactly
    when the configuration fails its checks, one of four others after. *)
Lemma preflight_throws (env : Env) (taskArgs : TaskArgs) (e : error) :
  preflight env taskArgs = Throw e ->
  (exists c, e = ConfigError c /\ ~ validated taskArgs)
  \/ (validated taskArgs
      /\ (e = RangeError \/ e = InvalidBigNumber \/ e = InsufficientFunds
          \/ e = NotOwner)).
Proof.
  unfold preflight, validated, BigNumber.lt.
  destruct (checkConfig _ _ _ _) as [[]|e0] eqn:Hcfg; cbn [bind].
  - intros H. right. split; [reflexivity|].
    destruct (formatWithDecimals (Number.toString _) _) as [af|e1] eqn:Haf;
      cbn [bind] in H.
    + unfold expectedCost in H.
      destruct (formatWithDecimals (Number.toString (Number.mul _ _)) _)
        as [c|e2] eqn:Hc; cbn [bind] in H.
      * destruct (BigNumber.from c) as [cost|e3] eqn:Hb; cbn [bind] in H.
        -- destruct (_ <? cost); [inversion H; auto|].
           destruct (negb _); [inversion H; auto|discriminate].
        -- inversion H; subst. apply BigNumber_from_throws in Hb. auto.
      * inversion H; subst. apply formatWithDecimals_throws in Hc. auto.
    + inversion H; subst. apply formatWithDecimals_throws in Haf. auto.
  - intros H. inversion H; subst. left.
    unfold checkConfig in Hcfg.
    repeat match type of Hcfg with
           | (if ?c then _ else _) = _ => destruct c
           end; inversion Hcfg; eexists; (split; [reflexivity|discriminate]).
Qed.

(** A run is either stopped by the pre-flight phase, with nothing done, or
    the loop over the parsed recipients. *)
Lemma run_cases (env : Env) (fuel : nat) (taskArgs : TaskArgs) :
  (exists e,
      preflight env taskArgs = Throw e
      /\ sendBatchTransfer env fuel taskArgs = ([], Raised e))
  \/ (exists amountFormatted,
         preflight env taskArgs = Ok (recipientsOf env taskArgs, amountFormatted)
         /\ sendBatchTransfer env fuel taskArgs
            = schedule env
                (if tokenNative taskArgs then ADDRESS_ZERO else tokenAddress taskArgs)
                amountFormatted
                (nullish (minBatchSize taskArgs) MAX_BATCH_SIZE)
                (nullish (maxBatchSize taskArgs) MAX_BATCH_SIZE)
                (nullish (minInterval taskArgs) DEFAULT_INTERVAL)
                (nullish (maxInterval taskArgs) DEFAULT_INTERVAL)
                (recipientsOf env taskArgs) fuel 0 0%nat).
Proof.
  unfold sendBatchTransfer.
  destruct (preflight env taskArgs) as [[addresses af]|e] eqn:Hpre.
  - right. destruct (preflight_passed _ _ _ _ Hpre) as (_ & -> & _).
    now exists af.
  - left. now exists e.
Qed.

Lemma recipients_are_recipients (env : Env) (taskArgs : TaskArgs) (x : string) :
  In x (recipientsOf env taskArgs) ->
  In x (fileLines env (addressesPath taskArgs)) /\ recipient x = true.
Proof.
  unfold recipientsOf, parseAddressesFile. rewrite fold_onLine. simpl.
  apply filter_In.
Qed.

(** ** Properties of every run *)

(** X1: the configuration is checked before anything else, in the order
    batch sizes, intervals, cap: the first check that fails decides the
    error, nothing is submitted, and no other step raises a configuration
    error. *)
Theorem config_checked_first (env : Env) (fuel : nat) (taskArgs : TaskArgs) :
  let lo := nullish (minBatchSize taskArgs) MAX_BATCH_SIZE in
  let hi := nullish (maxBatchSize taskArgs) MAX_BATCH_SIZE in
  let shortest := nullish (minInterval taskArgs) DEFAULT_INTERVAL in
  let longest := nullish (maxInterval taskArgs) DEFAULT_INTERVAL in
  let run := sendBatchTransfer env fuel taskArgs in
  (hi < lo -> run = ([], Raised (ConfigError MinBatchSizeAboveMax)))
  /\ (lo <= hi -> longest < shortest ->
      run = ([], Raised (ConfigError MinIntervalAboveMax)))
  /\ (lo <= hi -> shortest <= longest -> MAX_BATCH_SIZE < hi ->
      run = ([], Raised (ConfigError MaxBatchSizeAboveCap)))
  /\ (forall c, snd run = Raised (ConfigError c) ->
                ~ (lo <= hi /\ shortest <= longest /\ hi <= MAX_BATCH_SIZE)).
Proof.
  intros lo hi shortest longest run.
  assert (Hthrow : forall c, checkConfig lo hi shortest longest = Throw (ConfigError c) ->
                             run = ([], Raised (ConfigError c))).
  { intros c Hc. unfold run, sendBatchTransfer, preflight.
    fold lo hi shortest longest. now rewrite Hc. }
  repeat split.
  - intros H. apply Hthrow. unfold checkConfig.
    destruct (Z.gtb_spec lo hi); [reflexivity|lia].
  - intros H1 H2. apply Hthrow. unfold checkConfig.
    destruct (Z.gtb_spec lo hi); [lia|].
    destruct (Z.gtb_spec shortest longest); [reflexivity|lia].
  - intros H1 H2 H3. apply Hthrow. unfold checkConfig.
    destruct (Z.gtb_spec lo hi); [lia|].
    destruct (Z.gtb_spec shortest longest); [lia|].
    destruct (Z.gtb_spec hi MAX_BATCH_SIZE); [reflexivity|lia].
  - intros c Hc Hok. apply checkConfig_ok in Hok.
    destruct (run_cases env fuel taskArgs) as [(e & Hpre & Hrun)|(af & _ & Hrun)].
    + unfold run in Hc. rewrite Hrun in Hc. simpl in Hc. inversion Hc; subst e.
      destruct (preflight_throws _ _ _ Hpre) as [(c' & _ & Hnv)|(_ & H)].
      * now apply Hnv.
      * destruct H as [H|[H|[H|H]]]; discriminate H.
    + unfold run in Hc. rewrite Hrun in Hc.
      apply schedule_raised in Hc. discriminate Hc.
Qed.

Lemma config_checked_first_witness :
  let env := sampleEnv [addrA] 0 1 (fun _ => zero) in
  sendBatchTransfer env 3 (sampleArgs (Number.ofZ 1) (Some 600) (Some 600))
  = ([], Raised (ConfigError MaxBatchSizeAboveCap))
  /\ sendBatchTransfer env 3 (sampleArgs (Number.ofZ 1) (Some 3) (Some 2))
     = ([], Raised (ConfigError MinBatchSizeAboveMax)).
Proof.
  intros env. split.
  - apply (proj1 (proj2 (proj2
      (config_checked_first env 3
         (sampleArgs (Number.ofZ 1) (Some 600) (Some 600)))))); simpl;
      unfold MAX_BATCH_SIZE, DEFAULT_INTERVAL; lia.
  - apply (proj1
      (config_checked_first env 3
         (sampleArgs (Number.ofZ 1) (Some 3) (Some 2)))); simpl; lia.
Defined.

(** X2: once the configuration, the amounts and the balance have passed,
    the action raises the ownership error exactly when the owner recorded
    by the batcher is not the signer, and then nothing is submitted. *)
Theorem ownership_checked_last (env : Env) (fuel : nat) (taskArgs : TaskArgs)
        (amountFormatted : string) (cost : Z) :
  validated taskArgs ->
  perRecipient env taskArgs = Ok amountFormatted ->
  computedCost env taskArgs = Ok cost ->
  cost <= holdings env taskArgs ->
  let run := sendBatchTransfer env fuel taskArgs in
  (snd run = Raised NotOwner
   <-> ownerOf env (batcherAddress taskArgs) <> signerAddress env)
  /\ (ownerOf env (batcherAddress taskArgs) <> signerAddress env ->
      fst run = []).
Proof.
  intros Hcfg Hper Hcost Hbal run. unfold run, sendBatchTransfer.
  rewrite (preflight_checks _ _ _ _ Hcfg Hper Hcost).
  destruct (Z.ltb_spec (holdings env taskArgs) cost); [lia|].
  destruct (String.eqb_spec (ownerOf env (batcherAddress taskArgs))
                            (signerAddress env)) as [Heq|Hne]; cbn [negb].
  - split; [|intros Hne; now elim Hne].
    split; [|intros Hne; now elim Hne].
    intros Hr. apply schedule_raised in Hr. discriminate Hr.
  - split; [|reflexivity]. split; [now intros _|reflexivity].
Qed.

Lemma ownership_checked_last_witness :
  let env := strangerEnv [addrA; addrB; addrC] 6 4500000 (fun _ => half) in
  let taskArgs := sampleArgs (Number.ofRatio 3 2) None None in
  fst (sendBatchTransfer env 3 taskArgs) = []
  /\ snd (sendBatchTransfer env 3 taskArgs) = Raised NotOwner.
Proof.
  intros env taskArgs.
  destruct (ownership_checked_last env 3 taskArgs "1500000" 4500000
              ltac:(reflexivity) ltac:(vm_compute; reflexivity)
              ltac:(vm_compute; reflexivity) ltac:(vm_compute; discriminate))
    as [Hiff Hnone].
  assert (Hne : ownerOf env (batcherAddress taskArgs) <> signerAddress env)
    by (vm_compute; discriminate).
  split; [exact (Hnone Hne) | exact (proj2 Hiff Hne)].
Defined.

(** X3: an event in the trace, submission or wait, means every pre-flight
    check passed: the configuration is valid, the cost was computed and is
    covered by the holdings, and the signer owns the batcher. *)
Theorem nothing_happens_before_the_checks (env : Env) (fuel : nat)
        (taskArgs : TaskArgs) (ev : event) :
  In ev (fst (sendBatchTransfer env fuel taskArgs)) ->
  validated taskArgs
  /\ (exists cost,
         computedCost env taskArgs = Ok cost /\ cost <= holdings env taskArgs)
  /\ ownerOf env (batcherAddress taskArgs) = signerAddress env.
Proof.
  intros Hin.
  destruct (run_cases env fuel taskArgs) as [(e & _ & Hrun)|(af & Hpre & _)].
  - rewrite Hrun in Hin. destruct Hin.
  - destruct (preflight_passed _ _ _ _ Hpre) as (Hv & _ & _ & Hcost & Hown).
    auto.
Qed.

Lemma nothing_happens_before_the_checks_witness :
  let env := sampleEnv [addrA; addrB; addrC] 6 4500000 (fun _ => half) in
  let taskArgs := sampleArgs (Number.ofRatio 3 2) None None in
  In (Sleep 600000) (fst (sendBatchTransfer env 3 taskArgs))
  /\ exists cost,
       computedCost env taskArgs = Ok cost /\ cost <= holdings env taskArgs.
Proof.
  intros env taskArgs.
  assert (Hin : In (Sleep 600000) (fst (sendBatchTransfer env 3 taskArgs)))
    by (vm_compute; auto).
  split; [exact Hin|].
  exact (proj1 (proj2
           (nothing_happens_before_the_checks env 3 taskArgs _ Hin))).
Defined.

(** X4: every submission names the zero address under [tokenNative] and
    the token address otherwise, carries the per-recipient amount of line
    76, and holds only lines of the file that are well-formed addresses
    other than the zero address. *)
Theorem submissions_carry_the_task (env : Env) (fuel : nat)
        (taskArgs : TaskArgs) (token : string) (batch : list string)
        (amount : string) :
  In (BatchTransfer token batch amount)
     (fst (sendBatchTransfer env fuel taskArgs)) ->
  token = (if tokenNative taskArgs then ADDRESS_ZERO else tokenAddress taskArgs)
  /\ perRecipient env taskArgs = Ok amount
  /\ (forall x, In x batch ->
                In x (fileLines env (addressesPath taskArgs))
                /\ wellFormedAddress x /\ x <> ADDRESS_ZERO).
Proof.
  intros Hin.
  destruct (run_cases env fuel taskArgs) as [(e & _ & Hrun)|(af & Hpre & Hrun)].
  - rewrite Hrun in Hin. destruct Hin.
  - rewrite Hrun in Hin. apply schedule_events in Hin.
    destruct Hin as (-> & -> & Hincl).
    destruct (preflight_passed _ _ _ _ Hpre) as (_ & _ & Hper & _).
    repeat split; try assumption;
      destruct (recipients_are_recipients _ _ _ (Hincl _ H)) as [Hl Hr];
      try assumption; apply recipient_spec in Hr; tauto.
Qed.

Lemma submissions_carry_the_task_witness :
  let env := sampleEnv [addrA; "oops"; addrB; addrC] 6 4500000 (fun _ => half) in
  let taskArgs := sampleArgs (Number.ofRatio 3 2) None None in
  In (BatchTransfer tokenT [addrA; addrB; addrC] "1500000")
     (fst (sendBatchTransfer env 3 taskArgs))
  /\ perRecipient env taskArgs = Ok "1500000".
Proof.
  intros env taskArgs.
  assert (Hin : In (BatchTransfer tokenT [addrA; addrB; addrC] "1500000")
                   (fst (sendBatchTransfer env 3 taskArgs)))
    by (vm_compute; auto).
  split; [exact Hin|].
  exact (proj1 (proj2 (submissions_carry_the_task env 3 taskArgs _ _ _ Hin))).
Defined.

(** X5: with a non-negative minimum batch size and draws that fall in the
    configured range, no batch of any run, complete or not, holds more
    recipients than [maxBatchSize], hence than the cap of 500; with a
    minimum of at least one no batch is empty. *)
Theorem batches_respect_the_cap (env : Env) (fuel : nat) (taskArgs : TaskArgs)
        (batch : list string) :
  let lo := nullish (minBatchSize taskArgs) MAX_BATCH_SIZE in
  let hi := nullish (maxBatchSize taskArgs) MAX_BATCH_SIZE in
  drawsWithin env lo hi ->
  0 <= lo ->
  In batch (batches (fst (sendBatchTransfer env fuel taskArgs))) ->
  Z.of_nat (List.length batch) <= hi
  /\ Z.of_nat (List.length batch) <= MAX_BATCH_SIZE
  /\ (1 <= lo -> 1 <= Z.of_nat (List.length batch)).
Proof.
  intros lo hi Hr Hlo Hin.
  destruct (run_cases env fuel taskArgs) as [(e & _ & Hrun)|(af & Hpre & Hrun)].
  - rewrite Hrun in Hin. destruct Hin.
  - rewrite Hrun in Hin. fold lo hi in Hin.
    destruct (preflight_passed _ _ _ _ Hpre) as (Hv & _).
    apply checkConfig_ok in Hv. fold lo hi in Hv.
    destruct (schedule_batch_lengths _ _ _ _ _ _ _ _ fuel Hr Hlo 0 0%nat batch
                ltac:(lia) Hin) as [Hup Hlow].
    repeat split; [assumption|lia|assumption].
Qed.

Lemma batches_respect_the_cap_witness :
  let env := sampleEnv [addrA; addrB; addrC; addrD; addrE] 0 5 (fun _ => half) in
  let taskArgs := sampleArgs (Number.ofZ 1) (Some 1) (Some 3) in
  In [addrA; addrB] (batches (fst (sendBatchTransfer env 1 taskArgs)))
  /\ Z.of_nat (List.length [addrA; addrB]) <= 3.
Proof.
  intros env taskArgs.
  assert (Hin : In [addrA; addrB] (batches (fst (sendBatchTransfer env 1 taskArgs))))
    by (vm_compute; auto).
  split; [exact Hin|].
  refine (proj1 (batches_respect_the_cap env 1 taskArgs _ _ _ Hin)).
  - apply constant_draws_within. vm_compute. split; discriminate.
  - simpl. lia.
Defined.

(** X7: with a non-negative minimum batch size and draws in range, the
    batches of any run, also one cut short or stopped by a rejection, are
    in order a prefix of the recipient list: what is left to do is always
    a tail of the list and nobody is submitted twice. *)
Theorem batches_form_a_prefix (env : Env) (fuel : nat) (taskArgs : TaskArgs) :
  let lo := nullish (minBatchSize taskArgs) MAX_BATCH_SIZE in
  let hi := nullish (maxBatchSize taskArgs) MAX_BATCH_SIZE in
  drawsWithin env lo hi ->
  0 <= lo ->
  exists m,
    List.concat (batches (fst (sendBatchTransfer env fuel taskArgs)))
    = firstn m (recipientsOf env taskArgs).
Proof.
  intros lo hi Hr Hlo.
  destruct (run_cases env fuel taskArgs) as [(e & _ & Hrun)|(af & _ & Hrun)].
  - rewrite Hrun. now exists 0%nat.
  - rewrite Hrun.
    destruct (schedule_prefix env
                (if tokenNative taskArgs then ADDRESS_ZERO else tokenAddress taskArgs)
                af lo hi
                (nullish (minInterval taskArgs) DEFAULT_INTERVAL)
                (nullish (maxInterval taskArgs) DEFAULT_INTERVAL)
                (recipientsOf env taskArgs) fuel Hr Hlo 0 0%nat ltac:(lia))
      as [m Hm].
    now exists m.
Qed.

Lemma batches_form_a_prefix_witness :
  let env := refusingEnv addrC [addrA; addrB; addrC; addrD] 0 4 (fun _ => half) in
  let taskArgs := sampleArgs (Number.ofZ 1) (Some 1) (Some 1) in
  exists m,
    List.concat (batches (fst (sendBatchTransfer env 4 taskArgs)))
    = firstn m [addrA; addrB; addrC; addrD].
Proof.
  intros env taskArgs.
  refine (batches_form_a_prefix env 4 taskArgs _ _).
  - intros k. vm_compute. split; discriminate.
  - simpl. lia.
Defined.

(** X8: a run that ends on a rejected submission stops right there: its
    trace is a paced sequence of accepted submissions followed by the one
    rejected submission, with no wait and no further submission after it;
    and with a ledger that accepts everything no run raises. *)
Theorem rejection_stops_the_run (env : Env) (fuel : nat) (taskArgs : TaskArgs) :
  let run := sendBatchTransfer env fuel taskArgs in
  (snd run = Raised SubmissionRejected ->
   exists pre token batch amount,
     fst run = (pre ++ [BatchTransfer token batch amount])%list
     /\ accepts env token batch amount = false
     /\ paced pre
     /\ (forall b, In b (batches pre) -> accepts env token b amount = true))
  /\ (alwaysAccepts env -> snd run <> Raised SubmissionRejected).
Proof.
  intros run.
  assert (Hrej : snd run = Raised SubmissionRejected ->
                 exists pre token batch amount,
                   fst run = (pre ++ [BatchTransfer token batch amount])%list
                   /\ accepts env token batch amount = false
                   /\ paced pre
                   /\ (forall b, In b (batches pre) ->
                                 accepts env token b amount = true)).
  { intros Hend. unfold run in *.
    destruct (run_cases env fuel taskArgs) as [(e & Hpre & Hrun)|(af & _ & Hrun)].
    - rewrite Hrun in Hend. simpl in Hend. inversion Hend; subst e.
      destruct (preflight_throws _ _ _ Hpre) as [(c & Hc & _)|(_ & H)].
      + discriminate Hc.
      + destruct H as [H|[H|[H|H]]]; discriminate H.
    - rewrite Hrun in *.
      pose proof (schedule_endings env
                    (if tokenNative taskArgs then ADDRESS_ZERO else tokenAddress taskArgs)
                    af
                    (nullish (minBatchSize taskArgs) MAX_BATCH_SIZE)
                    (nullish (maxBatchSize taskArgs) MAX_BATCH_SIZE)
                    (nullish (minInterval taskArgs) DEFAULT_INTERVAL)
                    (nullish (maxInterval taskArgs) DEFAULT_INTERVAL)
                    (recipientsOf env taskArgs) fuel 0 0%nat) as H.
      rewrite Hend in H. destruct H as (_ & pre & b & Hfst & Hacc & Hp & Ha).
      exists pre,
        (if tokenNative taskArgs then ADDRESS_ZERO else tokenAddress taskArgs),
        b, af.
      auto. }
  split; [exact Hrej|].
  intros Hall Hend. destruct (Hrej Hend) as (pre & t & b & a & _ & Hacc & _).
  rewrite Hall in Hacc. discriminate Hacc.
Qed.

Lemma rejection_stops_the_run_witness :
  let env := refusingEnv addrC [addrA; addrB; addrC; addrD] 0 4 (fun _ => half) in
  let taskArgs := sampleArgs (Number.ofZ 1) (Some 1) (Some 1) in
  snd (sendBatchTransfer env 4 taskArgs) = Raised SubmissionRejected
  /\ exists pre token batch amount,
       fst (sendBatchTransfer env 4 taskArgs)
       = (pre ++ [BatchTransfer token batch amount])%list
       /\ accepts env token batch amount = false
       /\ paced pre
       /\ (forall b, In b (batches pre) -> accepts env token b amount = true).
Proof.
  intros env taskArgs.
  assert (Hend : snd (sendBatchTransfer env 4 taskArgs) = Raised SubmissionRejected)
    by (vm_compute; reflexivity).
  split; [exact Hend|].
  exact (proj1 (rejection_stops_the_run env 4 taskArgs) Hend).
Defined.

(** X9: a file none of whose lines is a usable address leads to no
    submission and no wait: the run either fails a pre-flight check or
    exits at once with the cursor at 0, whatever the bound on
    iterations. *)
Theorem no_recipient_no_event (env : Env) (fuel : nat) (taskArgs : TaskArgs) :
  (forall line, In line (fileLines env (addressesPath taskArgs)) ->
                recipient line = false) ->
  fst (sendBatchTransfer env fuel taskArgs) = []
  /\ (snd (sendBatchTransfer env fuel taskArgs) = Exited 0
      \/ exists e,
           preflight env taskArgs = Throw e
           /\ snd (sendBatchTransfer env fuel taskArgs) = Raised e).
Proof.
  intros Hnone.
  assert (Hrec : recipientsOf env taskArgs = []).
  { unfold recipientsOf, parseAddressesFile. rewrite fold_onLine. simpl.
    induction (fileLines env (addressesPath taskArgs)) as [|l ls IH];
      [reflexivity|].
    simpl. rewrite (Hnone l) by now left.
    apply IH. intros line Hin. apply Hnone. now right. }
  destruct (run_cases env fuel taskArgs) as [(e & Hpre & Hrun)|(af & _ & Hrun)].
  - rewrite Hrun. split; [reflexivity|]. right. now exists e.
  - rewrite Hrun, Hrec. rewrite schedule_exit by (unfold addresses_length; simpl; lia).
    split; [reflexivity|now left].
Qed.

Lemma no_recipient_no_event_witness :
  let env := sampleEnv [""; "not-an-address"; ADDRESS_ZERO] 6 0 (fun _ => half) in
  let taskArgs := sampleArgs (Number.ofRatio 3 2) None None in
  sendBatchTransfer env 0 taskArgs = ([], Exited 0)
  /\ fst (sendBatchTransfer env 7 taskArgs) = [].
Proof.
  intros env taskArgs. split; [vm_compute; reflexivity|].
  refine (proj1 (no_recipient_no_event env 7 taskArgs _)).
  intros line [<-|[<-|[<-|[]]]]; reflexivity.
Defined.

(** X10: with a minimum batch size of at least one and draws in range, a
    complete run over [n] recipients makes no batch when [n = 0] and
    otherwise [c >= 1] batches with [n <= c * maxBatchSize] and
    [(c - 1) * minBatchSize < n]: between [ceil(n / maxBatchSize)] and
    [ceil(n / minBatchSize)] submissions. *)
Theorem batch_count_bounds (env : Env) (fuel : nat) (taskArgs : TaskArgs)
        (tr : list event) (i : Z) :
  let lo := nullish (minBatchSize taskArgs) MAX_BATCH_SIZE in
  let hi := nullish (maxBatchSize taskArgs) MAX_BATCH_SIZE in
  drawsWithin env lo hi ->
  1 <= lo ->
  sendBatchTransfer env fuel taskArgs = (tr, Exited i) ->
  let n := Z.of_nat (List.length (recipientsOf env taskArgs)) in
  let c := Z.of_nat (List.length (batches tr)) in
  n <= c * hi
  /\ (n = 0 -> c = 0)
  /\ (0 < n -> 1 <= c /\ (c - 1) * lo < n).
Proof.
  intros lo hi Hr Hlo Hrun n c.
  destruct (run_exited _ _ _ _ _ Hrun) as (af & _ & Hloop).
  pose proof (schedule_count _ _ _ _ _ _ _ _ fuel Hr Hlo 0 0%nat tr i
                ltac:(unfold addresses_length; lia) Hloop) as H.
  cbv zeta in H. unfold addresses_length in H. rewrite Z.sub_0_r in H.
  exact H.
Qed.

Lemma batch_count_bounds_witness :
  let env := sampleEnv [addrA; addrB; addrC; addrD; addrE] 0 5 (fun _ => half) in
  let taskArgs := sampleArgs (Number.ofZ 1) (Some 1) (Some 3) in
  exists tr,
    sendBatchTransfer env 5 taskArgs = (tr, Exited 5)
    /\ 5 <= Z.of_nat (List.length (batches tr)) * 3.
Proof.
  intros env taskArgs.
  assert (Hrun : sendBatchTransfer env 5 taskArgs
                 = (fst (sendBatchTransfer env 5 taskArgs), Exited 5))
    by (vm_compute; reflexivity).
  eexists. split; [exact Hrun|].
  refine (proj1 (batch_count_bounds env 5 taskArgs _ 5 _ _ Hrun)).
  - apply constant_draws_within. vm_compute. split; discriminate.
  - simpl. lia.
Defined.

(** ** More on parseAddressesFile *)

Lemma parseAddressesFile_filter (lines : list string) :
  parseAddressesFile lines = filter recipient lines.
Proof. unfold parseAddressesFile. now rewrite fold_onLine. Qed.

(** X11: parsing is idempotent: the recipient list, written back one
    address per line and parsed again, comes out unchanged. *)
Theorem parseAddressesFile_idempotent (lines : list string) :
  parseAddressesFile (parseAddressesFile lines) = parseAddressesFile lines.
Proof.
  rewrite !parseAddressesFile_filter.
  induction lines as [|l ls IH]; [reflexivity|].
  simpl. destruct (recipient l) eqn:Hl; [|exact IH].
  simpl. now rewrite Hl, IH.
Qed.

(** X12: parsing goes line by line: the recipients of two files put end
    to end are the recipients of the first followed by those of the
    second, so no line changes how another is read. *)
Theorem parseAddressesFile_app (lines1 lines2 : list string) :
  parseAddressesFile (lines1 ++ lines2)
  = (parseAddressesFile lines1 ++ parseAddressesFile lines2)%list.
Proof. rewrite !parseAddressesFile_filter. apply filter_app. Qed.

(** ** More on formatWithDecimals *)

Lemma replicate_plus (n m : nat) (s : string) :
  JS.replicate (n + m) s = JS.replicate n s ++ JS.replicate m s.
Proof.
  induction n as [|n IH]; [reflexivity|].
  simpl. now rewrite IH, app_assoc_string.
Qed.

Lemma zeros_no_point (n : nat) : ~ In "."%char (chars (JS.replicate n "0")).
Proof.
  induction n as [|n IH]; simpl; [tauto|].
  intros [H|H]; [discriminate H|now apply IH].
Qed.

Lemma split_at_point (s : string) :
  (~ In "."%char (chars s) /\ integerPart s = s /\ fractionLength s = 0)
  \/ (exists fp,
         s = integerPart s ++ "." ++ fp
         /\ ~ In "."%char (chars (integerPart s))
         /\ fractionLength s = JS.length fp).
Proof.
  induction s as [|c s IH]; simpl.
  - left. tauto.
  - destruct (Ascii.eqb_spec c ".") as [->|Hne].
    + right. exists s. simpl. tauto.
    + destruct IH as [(Hno & Hip & Hfl)|(fp & Hs & Hno & Hfl)].
      * left. rewrite Hip. repeat split; try assumption.
        intros [H|H]; [now apply Hne|now apply Hno].
      * right. exists fp. simpl. repeat split; try assumption.
        -- f_equal. exact Hs.
        -- intros [H|H]; [now apply Hne|now apply Hno].
Qed.

(** X15: on any string, [formatWithDecimals] throws its RangeError exactly
    when [decimals] is below the number of characters after the first
    point (0 without a point, so a negative [decimals] always throws);
    otherwise the result has [decimals] characters more than the part
    before the point. *)
Theorem formatWithDecimals_outcome (value : string) (decimals : Z) :
  (decimals < fractionLength value ->
   formatWithDecimals value decimals = Throw RangeError)
  /\ (fractionLength value <= decimals ->
      exists r,
        formatWithDecimals value decimals = Ok r
        /\ JS.length r = JS.length (integerPart value) + decimals).
Proof.
  destruct (split_at_point value) as [(Hno & Hip & Hfl)|(fp & Hs & Hno & Hfl)].
  - rewrite Hip, Hfl. unfold formatWithDecimals.
    rewrite indexOf_absent by assumption. simpl. unfold JS.repeat. split.
    + intros H. destruct (Z.ltb_spec decimals 0); [reflexivity|lia].
    + intros H. destruct (Z.ltb_spec decimals 0); [lia|].
      eexists. split; [reflexivity|].
      rewrite length_app, length_replicate_char. lia.
  - rewrite Hfl. remember (integerPart value) as ip eqn:Eip.
    clear Hfl Eip. subst value.
    rewrite formatWithDecimals_point by assumption. unfold JS.repeat. split.
    + intros H. destruct (Z.ltb_spec (decimals - JS.length fp) 0); [reflexivity|lia].
    + intros H. destruct (Z.ltb_spec (decimals - JS.length fp) 0); [lia|].
      eexists. split; [reflexivity|].
      rewrite !length_app, length_replicate_char. lia.
Qed.

Lemma formatWithDecimals_outcome_witness :
  formatWithDecimals "12.5" (-1) = Throw RangeError
  /\ formatWithDecimals "7" (-1) = Throw RangeError
  /\ exists r, formatWithDecimals "12.5" 3 = Ok r /\ JS.length r = 2 + 3.
Proof.
  split; [|split].
  - apply (proj1 (formatWithDecimals_outcome "12.5" (-1))). reflexivity.
  - apply (proj1 (formatWithDecimals_outcome "7" (-1))). reflexivity.
  - apply (proj2 (formatWithDecimals_outcome "12.5" 3)). vm_compute. discriminate.
Defined.

(** X14: scaling composes: for a value whose fractional part fits in [d1]
    decimals, scaling to [d1] decimals and then scaling the result by
    [d2 >= 0] more gives what scaling to [d1 + d2] decimals gives at
    once. *)
Theorem formatWithDecimals_in_two_steps (ip fp : string) (d1 d2 : Z) :
  ~ In "."%char (chars ip) ->
  ~ In "."%char (chars fp) ->
  JS.length fp <= d1 ->
  0 <= d2 ->
  (r <- formatWithDecimals (ip ++ "." ++ fp) d1 ;; formatWithDecimals r d2)
  = formatWithDecimals (ip ++ "." ++ fp) (d1 + d2).
Proof.
  intros Hip Hfp Hlen Hd2.
  rewrite !formatWithDecimals_point by assumption. unfold JS.repeat.
  destruct (Z.ltb_spec (d1 - JS.length fp) 0); [lia|].
  destruct (Z.ltb_spec (d1 + d2 - JS.length fp) 0); [lia|].
  cbn [bind]. unfold formatWithDecimals.
  rewrite indexOf_absent.
  - simpl. unfold JS.repeat. destruct (Z.ltb_spec d2 0); [lia|]. cbn [bind].
    f_equal.
    replace (Z.to_nat (d1 + d2 - JS.length fp))
      with (Z.to_nat (d1 - JS.length fp) + Z.to_nat d2)%nat by lia.
    now rewrite replicate_plus, !app_assoc_string.
  - rewrite !chars_app. intros Hin.
    apply in_app_or in Hin. destruct Hin as [Hin|Hin]; [now apply Hip|].
    apply in_app_or in Hin. destruct Hin as [Hin|Hin]; [now apply Hfp|].
    now apply zeros_no_point in Hin.
Qed.

Lemma formatWithDecimals_in_two_steps_witness :
  (r <- formatWithDecimals ("1" ++ "." ++ "5") 6 ;; formatWithDecimals r 12)
  = formatWithDecimals ("1" ++ "." ++ "5") (6 + 12).
Proof.
  apply (formatWithDecimals_in_two_steps "1" "5" 6 12).
  - simpl. intros [H|[]]; discriminate H.
  - simpl. intros [H|[]]; discriminate H.
  - vm_compute. discriminate.
  - lia.
Defined.

(** *** The number a result denotes *)

Lemma isDigit_value (c : ascii) :
  isDigit c = true ->
  BigNumber.digitValue 10 c = Some (Z.of_nat (nat_of_ascii c) - 48).
Proof.
  unfold isDigit, BigNumber.digitValue. intros H. rewrite H.
  apply andb_true_iff in H. destruct H as [H1 H2].
  apply Z.leb_le in H1, H2.
  destruct (Z.ltb_spec (Z.of_nat (nat_of_ascii c) - 48) 10); [reflexivity|lia].
Qed.

Lemma digitsValue_digits (s : string) :
  allDigits s = true ->
  forall acc,
    BigNumber.digitsValue 10 acc s
    = Some (fold_left (fun a c => a * 10 + (Z.of_nat (nat_of_ascii c) - 48))
                      (chars s) acc).
Proof.
  induction s as [|c s IH]; simpl; intros H acc; [reflexivity|].
  apply andb_true_iff in H. destruct H as [Hc Hs].
  rewrite (isDigit_value c Hc). apply (IH Hs).
Qed.

Lemma unsignedValue_digits (s : string) :
  allDigits s = true -> s <> "" ->
  BigNumber.unsignedValue s = BigNumber.digitsValue 10 0 s.
Proof.
  intros H Hne. destruct s as [|a s]; [now elim Hne|].
  unfold BigNumber.unsignedValue.
  destruct a as [[] [] [] [] [] [] [] []]; try reflexivity.
  destruct s as [|b s]; [reflexivity|].
  destruct b as [[] [] [] [] [] [] [] []]; try reflexivity;
    simpl in H; discriminate H.
Qed.

Lemma BigNumber_from_digits (s : string) :
  allDigits s = true -> s <> "" ->
  BigNumber.from s = Ok (decimalValue s).
Proof.
  intros H Hne. unfold BigNumber.from.
  assert (Hu : BigNumber.unsignedValue s = Some (decimalValue s)).
  { rewrite unsignedValue_digits by assumption. now apply digitsValue_digits. }
  destruct s as [|a s]; [now elim Hne|].
  destruct a as [[] [] [] [] [] [] [] []]; try (now rewrite Hu).
  simpl in H. discriminate H.
Qed.

Lemma allDigits_app (s t : string) :
  allDigits (s ++ t) = allDigits s && allDigits t.
Proof.
  induction s as [|c s IH]; simpl; [reflexivity|].
  now rewrite IH, andb_assoc.
Qed.

Lemma allDigits_zeros (n : nat) : allDigits (JS.replicate n "0") = true.
Proof. induction n as [|n IH]; simpl; [reflexivity|exact IH]. Qed.

Lemma allDigits_no_point (s : string) :
  allDigits s = true -> ~ In "."%char (chars s).
Proof.
  induction s as [|c s IH]; simpl; intros H; [tauto|].
  apply andb_true_iff in H. destruct H as [Hc Hs].
  intros [E|E]; [subst c; discriminate Hc|now apply IH].
Qed.

Lemma decimalValue_zeros (s : string) (n : nat) :
  decimalValue (s ++ JS.replicate n "0") = decimalValue s * 10 ^ Z.of_nat n.
Proof.
  unfold decimalValue. rewrite chars_app, fold_left_app.
  generalize (fold_left (fun acc c => acc * 10 + (Z.of_nat (nat_of_ascii c) - 48))
                        (chars s) 0).
  induction n as [|n IH]; intros v.
  - simpl. lia.
  - cbn [JS.replicate]. change (chars ("0" ++ JS.replicate n "0"))
      with ("0"%char :: chars (JS.replicate n "0")).
    cbn [fold_left]. rewrite IH, Nat2Z.inj_succ, Z.pow_succ_r by lia.
    change (Z.of_nat (nat_of_ascii "0") - 48) with 0. lia.
Qed.

Lemma formatWithDecimals_numeral (ip : string) (decimals : Z) :
  allDigits ip = true -> ip <> "" -> 0 <= decimals ->
  (r <- formatWithDecimals ip decimals ;; BigNumber.from r)
  = Ok (decimalValue ip * 10 ^ decimals).
Proof.
  intros Hip Hne Hd. unfold formatWithDecimals.
  rewrite indexOf_absent by now apply allDigits_no_point.
  simpl. unfold JS.repeat. destruct (Z.ltb_spec decimals 0); [lia|]. cbn [bind].
  rewrite BigNumber_from_digits.
  - rewrite decimalValue_zeros. now rewrite Z2Nat.id by lia.
  - now rewrite allDigits_app, Hip, allDigits_zeros.
  - destruct ip; [now elim Hne|discriminate].
Qed.

Lemma formatWithDecimals_decimal (ip fp : string) (decimals : Z) :
  allDigits ip = true -> allDigits fp = true -> ip <> "" ->
  JS.length fp <= decimals ->
  (r <- formatWithDecimals (ip ++ "." ++ fp) decimals ;; BigNumber.from r)
  = Ok (decimalValue (ip ++ fp) * 10 ^ (decimals - JS.length fp)).
Proof.
  intros Hip Hfp Hne Hlen.
  rewrite formatWithDecimals_point by now apply allDigits_no_point.
  unfold JS.repeat.
  destruct (Z.ltb_spec (decimals - JS.length fp) 0); [lia|]. cbn [bind].
  rewrite <- app_assoc_string.
  rewrite BigNumber_from_digits.
  - rewrite decimalValue_zeros. now rewrite Z2Nat.id by lia.
  - now rewrite !allDigits_app, Hip, Hfp, allDigits_zeros.
  - destruct ip; [now elim Hne|discriminate].
Qed.

(** X13: on decimal numerals the result denotes the input scaled by
    [10^decimals]: [BigNumber] reads the result for a digit string [ip] as
    [ip * 10^decimals], and the result for [ip.fp], with [fp] of at most
    [decimals] digits, as the integer written [ip fp] times
    [10^(decimals - |fp|)]. *)
Theorem formatWithDecimals_scales :
  (forall ip decimals,
      allDigits ip = true -> ip <> "" -> 0 <= decimals ->
      (r <- formatWithDecimals ip decimals ;; BigNumber.from r)
      = Ok (decimalValue ip * 10 ^ decimals))
  /\ (forall ip fp decimals,
         allDigits ip = true -> allDigits fp = true -> ip <> "" ->
         JS.length fp <= decimals ->
         (r <- formatWithDecimals (ip ++ "." ++ fp) decimals ;; BigNumber.from r)
         = Ok (decimalValue (ip ++ fp) * 10 ^ (decimals - JS.length fp))).
Proof.
  split.
  - exact formatWithDecimals_numeral.
  - exact formatWithDecimals_decimal.
Qed.

Lemma formatWithDecimals_scales_witness :
  (r <- formatWithDecimals ("12" ++ "." ++ "5") 6 ;; BigNumber.from r)
  = Ok (125 * 10 ^ (6 - 1))
  /\ (r <- formatWithDecimals "40" 2 ;; BigNumber.from r) = Ok (40 * 10 ^ 2).
Proof.
  split.
  - apply (proj2 formatWithDecimals_scales "12" "5" 6).
    + reflexivity.
    + reflexivity.
    + discriminate.
    + vm_compute. discriminate.
  - apply (proj1 formatWithDecimals_scales "40" 2).
    + reflexivity.
    + discriminate.
    + lia.
Defined.

(** ** The cost of an empty list *)

(** X17: with no recipient the computed cost is 0 for every finite
    amount and every non-negative [decimals], so that no holdings fall
    short of it; for an amount that is infinite or not a number the
    product is NaN and the comparison throws on the string. *)
Theorem empty_list_costs_nothing (amount : Number.t) (decimals : Z) :
  0 <= decimals ->
  match amount with
  | S754_zero _ | S754_finite _ _ _ =>
      (c <- expectedCost 0 amount decimals ;; BigNumber.from c) = Ok 0
  | S754_infinity _ | S754_nan =>
      (c <- expectedCost 0 amount decimals ;; BigNumber.from c)
      = Throw InvalidBigNumber
  end.
Proof.
  intros Hd.
  assert (Hzero : (c <- formatWithDecimals "0" decimals ;; BigNumber.from c) = Ok 0).
  { rewrite (formatWithDecimals_numeral "0" decimals) by (auto; discriminate).
    reflexivity. }
  assert (Hnan : (c <- formatWithDecimals "NaN" decimals ;; BigNumber.from c)
                 = Throw InvalidBigNumber).
  { unfold formatWithDecimals. simpl. unfold JS.repeat.
    destruct (Z.ltb_spec decimals 0); [lia|]. reflexivity. }
  unfold expectedCost.
  destruct amount as [s|s| |s m e]; simpl; assumption.
Qed.

Lemma empty_list_costs_nothing_witness :
  (c <- expectedCost 0 oneTenth 18 ;; BigNumber.from c) = Ok 0.
Proof.
  exact (empty_list_costs_nothing oneTenth 18 ltac:(lia)).
Defined.
